(** * The Python executor of the code-execution server

    A shallow embedding of [src/executor/python-executor.ts] (class
    [PythonExecutor]) and of the configuration it reads from
    [types/index.ts] ([DEFAULT_CONFIG]).

    Conventions of the embedding.
    - A JavaScript string is a [string]; one character of the model stands
      for one UTF-16 code unit, so [strlen] is the [.length] of the source.
    - A JavaScript number that the executor handles (a timeout, an exit
      code, a clock reading) is an integer, a [Z]; an optional or nullable
      one is an [option Z].  [NaN] and fractions are outside the model.
    - The file system is a finite map from paths to nodes.
    - What the executor cannot decide itself is read from an [Env]: the
      clock, the outcome of each file-system call, the sequence of
      events the runtime delivers for the child process, and what the
      script, which runs unconfined with the rights of the host user,
      does to the file system.  The callbacks
      that [executeProcess] registers are functions on a [Child.State];
      a run of the child is the fold of these callbacks over the events. *)

From Stdlib Require Import ZArith String Ascii List Bool Lia DecimalString.
From Stdlib Require Import Sorting.Sorted Sorting.Permutation.
From stdpp Require Import base option gmap strings fin_maps.
Import ListNotations.

Local Open Scope string_scope.
Local Open Scope Z_scope.

(** ** JavaScript primitives used by the executor *)

Module Js.

(** [s.length] *)
Definition strlen (s : string) : Z := Z.of_nat (String.length s).

(** [s.includes(t)]: [t] occurs in [s] at some offset. *)
Fixpoint includes (s t : string) : bool :=
  if String.prefix t s then true
  else match s with
       | EmptyString => false
       | String _ s' => includes s' t
       end.

(** [x || d] on an optional number: [undefined] and [0] are falsy, every
    other integer, negative ones included, is truthy. *)
Definition or_num (x : option Z) (d : Z) : Z :=
  match x with
  | Some v => if v =? 0 then d else v
  | None => d
  end.

(** A value that can be thrown: an [Error] object with its [message], or
    anything else, given by what [String(v)] renders. *)
Inductive Value : Type :=
  | ErrorObject (message : string)
  | NonError (rendered : string).

(** [error instanceof Error ? error.message : String(error)] *)
Definition error_text (e : Value) : string :=
  match e with
  | ErrorObject m => m
  | NonError s => s
  end.

(** [s.repeat(n)]; used to write long inputs. *)
Definition repeat (s : string) (n : Z) : string :=
  Z.iter n (String.append s) "".

End Js.

(** ** Configuration ([types/index.ts]) *)

Record ExecutorConfig : Type := {
  maxTimeout : Z;
  maxMemoryMB : Z;
  allowedCommands : option (list string);
  blockedCommands : option (list string)
}.

Definition DEFAULT_CONFIG : ExecutorConfig := {|
  maxTimeout := 30000;
  maxMemoryMB := 512;
  allowedCommands := None;
  blockedCommands := Some [
    "rm -rf";
    "dd";
    "mkfs";
    "format";
    ":(){:|:&};:";
    "sudo";
    "su"
  ]
|}.

Definition config : ExecutorConfig := DEFAULT_CONFIG.

(** ** Completions

    A piece of the executor either returns a value, throws, or waits for a
    promise that the observed events never settle. *)

Inductive Completion (A : Type) : Type :=
  | Normal (a : A)
  | Throw (e : Js.Value)
  | Pending.
Arguments Normal {A} a.
Arguments Throw {A} e.
Arguments Pending {A}.

(** ** Validation *)

Definition security_violation (blocked : string) : string :=
  "Security violation: Blocked command detected: " ++ blocked.

Definition code_too_large : string := "Code too large: Maximum 100KB allowed".

(** The loop of [validateCode]: the first entry of the list, in list order,
    that the code includes. *)
Fixpoint first_blocked (bl : list string) (code : string) : option string :=
  match bl with
  | [] => None
  | blocked :: bl' =>
      if Js.includes code blocked then Some blocked else first_blocked bl' code
  end.

(** [this.config.blockedCommands || []] *)
Definition denylist : list string := default [] (blockedCommands config).

(** [validateCode] (lines 18-30): the deny list is scanned first (lines
    20-24), the length is checked after it (lines 27-29). *)
Definition validateCode (code : string) : Completion unit :=
  match first_blocked denylist code with
  | Some blocked => Throw (Js.ErrorObject (security_violation blocked))
  | None =>
      if 100000 <? Js.strlen code
      then Throw (Js.ErrorObject code_too_large)
      else Normal tt
  end.

(** ** Results ([types/index.ts]) *)

Record ExecutionRequest : Type := {
  code : string;
  timeout : option Z
}.

Record ExecutionResult : Type := {
  success : bool;
  stdout : string;
  stderr : string;
  exitCode : Z;
  executionTime : Z;
  error : option string
}.

(** [Omit<ExecutionResult, 'executionTime'>], what [executeProcess]
    resolves with. *)
Record ProcessResult : Type := {
  p_success : bool;
  p_stdout : string;
  p_stderr : string;
  p_exitCode : Z;
  p_error : option string
}.

(** [{ ...result, executionTime: t }] *)
Definition with_executionTime (r : ProcessResult) (t : Z) : ExecutionResult := {|
  success := p_success r;
  stdout := p_stdout r;
  stderr := p_stderr r;
  exitCode := p_exitCode r;
  executionTime := t;
  error := p_error r
|}.

(** ** The child process and the callbacks of [executeProcess] *)

Module Child.

Inductive Signal : Type := SIGTERM | SIGKILL.

(** The [ChildProcess] object as the runtime keeps it.  [handle] holds
    while the process runs; [proc_killed] is the property [proc.killed],
    which the runtime sets when [kill] has delivered a signal (it says
    nothing about the process having ended); [kills] logs every call of
    [kill], in order, with whether the signal was delivered. *)
Record Proc : Type := {
  handle : bool;
  proc_killed : bool;
  kills : list (Signal * bool)
}.

(** [proc.kill(sig)]: delivers [sig] and sets [proc.killed] when the
    process still runs; otherwise returns false and leaves the flag.  A
    signal to one's own running child is taken to be deliverable. *)
Definition kill (sig : Signal) (p : Proc) : Proc :=
  if handle p
  then {| handle := true; proc_killed := true; kills := kills p ++ [(sig, true)] |}
  else {| handle := false; proc_killed := proc_killed p; kills := kills p ++ [(sig, false)] |}.

(** The runtime releases the handle when the process ends. *)
Definition exited (p : Proc) : Proc :=
  {| handle := false; proc_killed := proc_killed p; kills := kills p |}.

(** What the event loop can deliver for one child. *)
Inductive Event : Type :=
  | StdoutData (data : string)     (* proc.stdout 'data' *)
  | StderrData (data : string)     (* proc.stderr 'data' *)
  | SpawnTimer                     (* the runtime's timer for the spawn option [timeout] *)
  | Timer                          (* the timer of [setTimeout(..., timeout)] *)
  | GraceTimer                     (* the timer of [setTimeout(..., 1000)] *)
  | Exit                           (* the process has ended *)
  | Close (code : option Z)        (* proc 'close', [code] is null after a signal *)
  | ErrorEvent (message : string). (* proc 'error' *)

(** The variables the callbacks close over, the timers, and the promise. *)
Record State : Type := {
  stdout : string;
  stderr : string;
  killed : bool;
  proc : Proc;
  spawn_timer : option Z;
  timer : option Z;
  grace_timer : option Z;
  promise : option ProcessResult
}.

Definition timeout_message : string := "Execution timeout or output limit exceeded".

Definition newline : string := String (ascii_of_nat 10) "".

(** State after the synchronous body of the promise executor (lines
    82-126).  The process is spawned with the option [timeout: timeout]
    (line 93): for a positive value the runtime arms, inside [spawn], a
    timer of its own that calls [child.kill(killSignal)], the signal
    defaulting to SIGTERM, and that is cleared when the process ends.  The
    executor then arms its timer of the same delay (line 116), so of the
    two the runtime's is the older. *)
Definition spawned (timeout : Z) : State := {|
  stdout := "";
  stderr := "";
  killed := false;
  proc := {| handle := true; proc_killed := false; kills := [] |};
  spawn_timer := if 0 <? timeout then Some timeout else None;
  timer := Some timeout;
  grace_timer := None;
  promise := None
|}.

Definition set_proc (p : Proc) (s : State) : State := {|
  stdout := stdout s; stderr := stderr s; killed := killed s; proc := p;
  spawn_timer := spawn_timer s; timer := timer s;
  grace_timer := grace_timer s; promise := promise s
|}.

Definition set_killed (s : State) : State := {|
  stdout := stdout s; stderr := stderr s; killed := true; proc := proc s;
  spawn_timer := spawn_timer s; timer := timer s;
  grace_timer := grace_timer s; promise := promise s
|}.

(** [clearTimeout(timer)] *)
Definition clear_timer (s : State) : State := {|
  stdout := stdout s; stderr := stderr s; killed := killed s; proc := proc s;
  spawn_timer := spawn_timer s; timer := None;
  grace_timer := grace_timer s; promise := promise s
|}.

(** [resolve(r)]: only the first call settles the promise. *)
Definition resolve (r : ProcessResult) (s : State) : State :=
  match promise s with
  | Some _ => s
  | None => {|
      stdout := stdout s; stderr := stderr s; killed := killed s; proc := proc s;
      spawn_timer := spawn_timer s; timer := timer s;
      grace_timer := grace_timer s; promise := Some r
    |}
  end.

(** [proc.stdout.on('data', ...)] (lines 97-104); [proc.kill()] sends
    SIGTERM. *)
Definition on_stdout (data : string) (s : State) : State :=
  let s1 := {|
    stdout := stdout s ++ data; stderr := stderr s; killed := killed s; proc := proc s;
    spawn_timer := spawn_timer s; timer := timer s;
    grace_timer := grace_timer s; promise := promise s
  |} in
  if 1000000 <? Js.strlen (stdout s1)
  then set_killed (set_proc (kill SIGTERM (proc s1)) s1)
  else s1.

(** [proc.stderr.on('data', ...)] (lines 107-113) *)
Definition on_stderr (data : string) (s : State) : State :=
  let s1 := {|
    stdout := stdout s; stderr := stderr s ++ data; killed := killed s; proc := proc s;
    spawn_timer := spawn_timer s; timer := timer s;
    grace_timer := grace_timer s; promise := promise s
  |} in
  if 1000000 <? Js.strlen (stderr s1)
  then set_killed (set_proc (kill SIGTERM (proc s1)) s1)
  else s1.

(** The callback of the runtime's own timer: [child.kill(killSignal)],
    the signal defaulting to SIGTERM. *)
Definition on_spawn_timeout (s : State) : State :=
  match spawn_timer s with
  | None => s
  | Some _ =>
      let s1 := {|
        stdout := stdout s; stderr := stderr s; killed := killed s; proc := proc s;
        spawn_timer := None; timer := timer s;
        grace_timer := grace_timer s; promise := promise s
      |} in
      set_proc (kill SIGTERM (proc s1)) s1
  end.

(** The callback of [setTimeout(..., timeout)] (lines 116-126). *)
Definition on_timeout (s : State) : State :=
  match timer s with
  | None => s
  | Some _ =>
      let s1 := clear_timer s in
      if negb (proc_killed (proc s1))
      then
        let s2 := set_killed (set_proc (kill SIGTERM (proc s1)) s1) in
        {| stdout := stdout s2; stderr := stderr s2; killed := killed s2; proc := proc s2;
           spawn_timer := spawn_timer s2; timer := timer s2;
           grace_timer := Some 1000; promise := promise s2 |}
      else s1
  end.

(** The callback of the inner [setTimeout(..., 1000)] (lines 120-124);
    this timer is never cleared. *)
Definition on_grace (s : State) : State :=
  match grace_timer s with
  | None => s
  | Some _ =>
      let s1 := {|
        stdout := stdout s; stderr := stderr s; killed := killed s; proc := proc s;
        spawn_timer := spawn_timer s; timer := timer s;
        grace_timer := None; promise := promise s
      |} in
      if negb (proc_killed (proc s1))
      then set_proc (kill SIGKILL (proc s1)) s1
      else s1
  end.

(** The process ends: the handle is released and the runtime clears its
    own timer. *)
Definition on_exit (s : State) : State := {|
  stdout := stdout s; stderr := stderr s; killed := killed s; proc := exited (proc s);
  spawn_timer := None; timer := timer s;
  grace_timer := grace_timer s; promise := promise s
|}.

(** [code === 0] *)
Definition is_zero (code : option Z) : bool :=
  match code with
  | Some c => c =? 0
  | None => false
  end.

(** The three objects the promise is resolved with (lines 133-139,
    141-146 and 153-159). *)
Definition forced_result (o e : string) : ProcessResult := {|
  p_success := false;
  p_stdout := o;
  p_stderr := e ++ newline ++ timeout_message;
  p_exitCode := -1;
  p_error := Some timeout_message
|}.

Definition exit_result (code : option Z) (o e : string) : ProcessResult := {|
  p_success := is_zero code;
  p_stdout := o;
  p_stderr := e;
  p_exitCode := Js.or_num code 0;
  p_error := None
|}.

Definition error_result (message o e : string) : ProcessResult := {|
  p_success := false;
  p_stdout := o;
  p_stderr := e ++ newline ++ message;
  p_exitCode := -1;
  p_error := Some message
|}.

(** [proc.on('close', ...)] (lines 129-148); 'close' comes after the
    process has ended. *)
Definition on_close (code : option Z) (s : State) : State :=
  let s1 := clear_timer (on_exit s) in
  if killed s1
  then resolve (forced_result (stdout s1) (stderr s1)) s1
  else resolve (exit_result code (stdout s1) (stderr s1)) s1.

(** [proc.on('error', ...)] (lines 151-160) *)
Definition on_error (message : string) (s : State) : State :=
  let s1 := clear_timer s in
  resolve (error_result message (stdout s1) (stderr s1)) s1.

Definition step (s : State) (e : Event) : State :=
  match e with
  | StdoutData d => on_stdout d s
  | StderrData d => on_stderr d s
  | SpawnTimer => on_spawn_timeout s
  | Timer => on_timeout s
  | GraceTimer => on_grace s
  | Exit => on_exit s
  | Close c => on_close c s
  | ErrorEvent m => on_error m s
  end.

Definition run (timeout : Z) (events : list Event) : State :=
  fold_left step events (spawned timeout).

(** *** Reading a sequence of events *)

(** The events that settle the promise. *)
Definition is_settling (e : Event) : bool :=
  match e with
  | Close _ | ErrorEvent _ => true
  | _ => false
  end.

(** All that the child wrote to each stream, in order. *)
Fixpoint stdout_of (evs : list Event) : string :=
  match evs with
  | [] => ""
  | StdoutData d :: evs' => d ++ stdout_of evs'
  | _ :: evs' => stdout_of evs'
  end.

Fixpoint stderr_of (evs : list Event) : string :=
  match evs with
  | [] => ""
  | StderrData d :: evs' => d ++ stderr_of evs'
  | _ :: evs' => stderr_of evs'
  end.

(** Output and the end of the process: the events in which no timer fires
    and nothing settles. *)
Definition is_calm (e : Event) : bool :=
  match e with
  | StdoutData _ | StderrData _ | Exit => true
  | _ => false
  end.

(** The child ends on its own: only output and its exit are seen, and
    neither stream passes the limit. *)
Definition own_completion (evs : list Event) : Prop :=
  forallb is_calm evs = true /\
  Js.strlen (stdout_of evs) <= 1000000 /\
  Js.strlen (stderr_of evs) <= 1000000.


(** *** Invariants of the callbacks *)

(** Every object the promise can hold is one of the three built by the
    'close' and 'error' callbacks. *)
Inductive settled_shape : ProcessResult -> Prop :=
  | shape_forced o e : settled_shape (forced_result o e)
  | shape_exit c o e : settled_shape (exit_result c o e)
  | shape_error m o e : settled_shape (error_result m o e).

(** While the grace timer is armed, the SIGTERM of the timeout callback
    has been delivered or the process had already ended. *)
Definition grace_inv (s : State) : Prop :=
  (grace_timer s <> None ->
     proc_killed (proc s) = true \/ handle (proc s) = false) /\
  ~ In (SIGKILL, true) (kills (proc s)).

(** The first call of [kill] is never the one with SIGKILL. *)
Definition order_inv (s : State) : Prop :=
  (grace_timer s <> None -> kills (proc s) <> []) /\
  match kills (proc s) with
  | [] => True
  | (sig, _) :: _ => sig = SIGTERM
  end.


End Child.

(** ** The file system and the environment of one call *)

Inductive FsNode : Type :=
  | Directory
  | RegularFile (content : string).

Abbreviation FileSystem := (gmap string FsNode).

(** [path.join(dir, name)] for a [dir] without trailing separator. *)
Definition path_join (dir name : string) : string := dir ++ "/" ++ name.

(** [p] is [dir] or lies below it. *)
Definition under (dir p : string) : bool :=
  String.eqb p dir || String.prefix (dir ++ "/") p.

Record Env : Type := {
  now_start : Z;                          (* Date.now() on entry *)
  now_end : Z;                            (* Date.now() when the result is built *)
  os_tmpdir : string;                     (* os.tmpdir() *)
  mkdtemp_outcome : Js.Value + string;    (* rejects, or the characters appended to the prefix *)
  writeFile_outcome : option Js.Value;    (* [Some e]: the write rejects with [e] *)
  spawn_outcome : option Js.Value;        (* [Some e]: spawn throws [e] synchronously *)
  child_events : list Child.Event;        (* what the event loop delivers for the child *)
  child_files : FileSystem -> FileSystem; (* what the running script does to the file system *)
  rm_outcome : option Js.Value            (* [Some e]: the removal rejects with [e] *)
}.

(** A computation over the file system that returns, throws or stays
    pending. *)
Definition Exec (A : Type) : Type := FileSystem -> Completion A * FileSystem.

#[global] Instance exec_ret : MRet Exec := fun A a fs => (Normal a, fs).

#[global] Instance exec_bind : MBind Exec := fun A B k m fs =>
  match m fs with
  | (Normal a, fs') => k a fs'
  | (Throw e, fs') => (Throw e, fs')
  | (Pending, fs') => (Pending, fs')
  end.

(** [await c] for a completion that does not touch the file system. *)
Definition lift {A} (c : Completion A) : Exec A := fun fs => (c, fs).

(** [try { body } catch (error) { handler }] *)
Definition try_catch {A} (body : Exec A) (handler : Js.Value -> Exec A) : Exec A :=
  fun fs =>
    match body fs with
    | (Throw e, fs') => handler e fs'
    | r => r
    end.

(** [fs.mkdtemp(prefix)]: creates a directory named by the prefix and the
    characters the runtime picks, and returns its path. *)
Definition mkdtemp (env : Env) (prefix : string) : Exec string :=
  fun fs =>
    match mkdtemp_outcome env with
    | inl e => (Throw e, fs)
    | inr suffix =>
        let dir := prefix ++ suffix in
        (Normal dir, <[dir := Directory]> fs)
    end.

(** [fs.writeFile(path, data, 'utf-8')] *)
Definition writeFile (env : Env) (path data : string) : Exec unit :=
  fun fs =>
    match writeFile_outcome env with
    | Some e => (Throw e, fs)
    | None => (Normal tt, <[path := RegularFile data]> fs)
    end.

(** [fs.rm(path, { recursive: true, force: true })]: removes [path] and
    all below it; [force] only silences a missing [path], any other
    failure rejects. *)
Definition rm (env : Env) (path : string) : Exec unit :=
  fun fs =>
    match rm_outcome env with
    | Some e => (Throw e, fs)
    | None => (Normal tt, filter (fun kv => under path kv.1 = false) fs)
    end.

(** ** [executeProcess] and [execute] *)

(** [executeProcess] (lines 76-162): the promise rejects when spawn
    throws inside the executor, resolves with what the first [resolve]
    received, and stays pending when no 'close' or 'error' arrives. *)
Definition executeProcess (scriptPath : string) (timeout : Z) (workingDir : string)
    (env : Env) : Completion ProcessResult :=
  match spawn_outcome env with
  | Some e => Throw e
  | None =>
      match Child.promise (Child.run timeout (child_events env)) with
      | Some r => Normal r
      | None => Pending
      end
  end.

(** [await] of that promise (line 52).  While the executor waits, the
    child, once spawned, runs the script: [python3] is started with the
    scope as working directory and the environment of the server, and
    nothing confines it, so it can change any path the host user can. *)
Definition await_child (env : Env) (promise : Completion ProcessResult)
    : Exec ProcessResult :=
  fun fs =>
    match spawn_outcome env with
    | Some _ => (promise, fs)
    | None => (promise, child_files env fs)
    end.

(** The timeout computed on entry (lines 37-40):
    [Math.min(request.timeout || maxTimeout, maxTimeout)]. *)
Definition effective_timeout (request : ExecutionRequest) : Z :=
  Z.min (Js.or_num (timeout request) (maxTimeout config)) (maxTimeout config).

(** The object built in the [catch] block (lines 62-69). *)
Definition failure_result (env : Env) (e : Js.Value) : ExecutionResult := {|
  success := false;
  stdout := "";
  stderr := Js.error_text e;
  exitCode := -1;
  executionTime := now_end env - now_start env;
  error := Some (Js.error_text e)
|}.

(** [execute] (lines 35-71) *)
Definition execute (request : ExecutionRequest) (env : Env) : Exec ExecutionResult :=
  let startTime := now_start env in
  let timeout := effective_timeout request in
  try_catch
    (lift (validateCode (code request));;
     tmpDir ← mkdtemp env (path_join (os_tmpdir env) "mcp-exec-");
     let scriptPath := path_join tmpDir "script.py" in
     writeFile env scriptPath (code request);;
     result ← await_child env (executeProcess scriptPath timeout tmpDir env);
     rm env tmpDir;;
     mret (with_executionTime result (now_end env - startTime)))
    (fun error => mret (failure_result env error)).

(** The result of a call and the file system it leaves. *)
Definition result_of {A} (r : Completion A * FileSystem) : Completion A := r.1.
Definition files_of {A} (r : Completion A * FileSystem) : FileSystem := r.2.

(** The invocation gets as far as its child process: the code passes
    validation, the scope is created, the script is written and spawn
    does not throw. *)
Definition child_started (req : ExecutionRequest) (env : Env) : Prop :=
  validateCode (code req) = Normal tt /\
  (exists suffix, mkdtemp_outcome env = inr suffix) /\
  writeFile_outcome env = None /\
  spawn_outcome env = None.

(** What is thrown before the child runs, if anything: the rejection of
    the validation, the failure to prepare the scope (its creation, then
    the writing of the script), or what spawn throws. *)
Definition thrown_before_child (req : ExecutionRequest) (env : Env) : option Js.Value :=
  match validateCode (code req) with
  | Throw e => Some e
  | _ =>
      match mkdtemp_outcome env with
      | inl e => Some e
      | inr _ =>
          match writeFile_outcome env with
          | Some e => Some e
          | None => spawn_outcome env
          end
      end
  end.

(** The scope of an invocation, when it has created one. *)
Definition scope_of (env : Env) : option string :=
  match mkdtemp_outcome env with
  | inl _ => None
  | inr suffix => Some (path_join (os_tmpdir env) "mcp-exec-" ++ suffix)
  end.

(** Every completion of [execute]: the object of the [catch] block for
    whatever was thrown, a settled promise with its time, or a pending
    promise. *)
Inductive execute_outcome (req : ExecutionRequest) (env : Env) :
    Completion ExecutionResult -> Prop :=
  | outcome_caught e :
      execute_outcome req env (Normal (failure_result env e))
  | outcome_settled r :
      child_started req env ->
      rm_outcome env = None ->
      Child.promise (Child.run (effective_timeout req) (child_events env)) = Some r ->
      execute_outcome req env
        (Normal (with_executionTime r (now_end env - now_start env)))
  | outcome_pending :
      child_started req env ->
      Child.promise (Child.run (effective_timeout req) (child_events env)) = None ->
      execute_outcome req env Pending.

(** ** Concrete requests and environments *)

Definition scope_dir : string := "/tmp/mcp-exec-AbC123".

(** An environment in which the temporary directory is created as
    [scope_dir] and the script leaves the file system alone; the other
    outcomes are given. *)
Definition env_of (write : option Js.Value) (events : list Child.Event)
    (removal : option Js.Value) : Env := {|
  now_start := 1000;
  now_end := 1250;
  os_tmpdir := "/tmp";
  mkdtemp_outcome := inr "AbC123";
  writeFile_outcome := write;
  spawn_outcome := None;
  child_events := events;
  child_files := fun fs => fs;
  rm_outcome := removal
|}.

Definition req_print : ExecutionRequest :=
  {| code := "print('ok')"; timeout := Some 500 |}.

Definition req_exit7 : ExecutionRequest :=
  {| code := "import os, sys; os.chmod('.', 0); sys.exit(7)"; timeout := None |}.

Definition req_loop : ExecutionRequest :=
  {| code := "while True: pass"; timeout := Some 200 |}.

Definition req_negative : ExecutionRequest :=
  {| code := "print('ok')"; timeout := Some (-5) |}.

Definition ENOSPC : Js.Value :=
  Js.ErrorObject "ENOSPC: no space left on device, write".

Definition EACCES : Js.Value :=
  Js.ErrorObject "EACCES: permission denied, rmdir '/tmp/mcp-exec-AbC123'".

(** The script prints and ends with status 0. *)
Definition events_ok : list Child.Event :=
  [Child.StdoutData "ok"; Child.Exit; Child.Close (Some 0)].

(** The script ends with status 7. *)
Definition events_exit7 : list Child.Event :=
  [Child.Exit; Child.Close (Some 7)].


(** The script ignores SIGTERM and loops: the executor's timer fires, the
    grace timer fires a second later, the child still runs. *)
Definition events_ignoring_sigterm : list Child.Event :=
  [Child.Timer; Child.GraceTimer].

(** The script writes without end; the first chunk already passes the
    limit of its stream, and the child dies of the SIGTERM. *)
Definition events_flood : list Child.Event :=
  [Child.StdoutData (Js.repeat "a" 1000001); Child.Exit; Child.Close None].

(** A text over the size limit that holds a blocked command, and one that
    holds none. *)
Definition oversize_sudo : string := "sudo " ++ Js.repeat "a" 100000.
Definition oversize_plain : string := Js.repeat "a" 100001.

(** ** Further definitions for the executor *)

(** After 'close': the executor's timer is cleared, the process has no
    handle, and every delivered signal of the log is one of [delivered]. *)
Definition closed_inv (delivered : list (Child.Signal * bool)) (s : Child.State) : Prop :=
  Child.timer s = None /\
  Child.handle (Child.proc s) = false /\
  (forall sig, In (sig, true) (Child.kills (Child.proc s)) -> In (sig, true) delivered).

(** The environment with another sequence of events for the child. *)
Definition with_events (env : Env) (events : list Child.Event) : Env := {|
  now_start := now_start env;
  now_end := now_end env;
  os_tmpdir := os_tmpdir env;
  mkdtemp_outcome := mkdtemp_outcome env;
  writeFile_outcome := writeFile_outcome env;
  spawn_outcome := spawn_outcome env;
  child_events := events;
  child_files := child_files env;
  rm_outcome := rm_outcome env
|}.

(** SIGKILL delivered to a running child. *)
Definition sigkill_delivered (k : Child.Signal * bool) : bool :=
  match k with
  | (Child.SIGKILL, true) => true
  | _ => false
  end.

(** The environment with another script at work in the file system. *)
Definition with_child_files (env : Env) (effect : FileSystem -> FileSystem) : Env := {|
  now_start := now_start env;
  now_end := now_end env;
  os_tmpdir := os_tmpdir env;
  mkdtemp_outcome := mkdtemp_outcome env;
  writeFile_outcome := writeFile_outcome env;
  spawn_outcome := spawn_outcome env;
  child_events := child_events env;
  child_files := effect;
  rm_outcome := rm_outcome env
|}.

(** The file system in which the child starts: the one of the call with
    the scope and the script in it (lines 47-49). *)
Definition scope_prepared (req : ExecutionRequest) (dir : string) (fs : FileSystem)
    : FileSystem :=
  <[path_join dir "script.py" := RegularFile (code req)]> (<[dir := Directory]> fs).

(** A script that ignores SIGTERM and loops. *)
Definition req_ignoring_sigterm : ExecutionRequest :=
  {| code := "import signal" ++ String (ascii_of_nat 10)
               ("signal.signal(signal.SIGTERM, signal.SIG_IGN)" ++ String (ascii_of_nat 10)
                  "while True: pass");
     timeout := Some 200 |}.

(** The events of that script: the runtime's timer and the executor's
    timer fire, in this order, the grace timer fires a second later, and
    the child still runs. *)
Definition events_sigterm_ignored : list Child.Event :=
  Child.SpawnTimer :: events_ignoring_sigterm.

(** A script that writes a file outside its scope, and what it does to
    the file system. *)
Definition req_write_outside : ExecutionRequest :=
  {| code := "open('/tmp/left.txt', 'w').write('left')"; timeout := Some 500 |}.

Definition write_outside (fs : FileSystem) : FileSystem :=
  <["/tmp/left.txt" := RegularFile "left"]> fs.

(** ** JavaScript values and texts of the callers *)

(** The double quote and the line feed. *)
Definition dq : string := String (ascii_of_nat 34) "".
Definition nl : string := String (ascii_of_nat 10) "".

(** A value as a tool call can carry it in its arguments. *)
Module Dyn.

Inductive t : Type :=
  | Undefined
  | Null
  | Bool (b : bool)
  | Num (n : Z)
  | Str (s : string)
  | Obj (rendered : string).  (* an array or object, with what [String(v)] gives *)

(** [v] in a test: [undefined], [null], [false], [0] and the empty string
    are falsy. *)
Definition truthy (v : t) : bool :=
  match v with
  | Undefined | Null => false
  | Bool b => b
  | Num n => negb (n =? 0)
  | Str s => negb (String.eqb s "")
  | Obj _ => true
  end.

(** [typeof v === 'string'] *)
Definition is_string (v : t) : bool :=
  match v with
  | Str _ => true
  | _ => false
  end.

(** [v] inside a template literal; a number is an integer of ordinary
    size and prints in decimal. *)
Definition to_string (v : t) : string :=
  match v with
  | Undefined => "undefined"
  | Null => "null"
  | Bool true => "true"
  | Bool false => "false"
  | Num n => NilZero.string_of_int (Z.to_int n)
  | Str s => s
  | Obj rendered => rendered
  end.

(** [a || b] *)
Definition or (a b : t) : t := if truthy a then a else b.

(** [v === s] for a string [s] *)
Definition equals (v : t) (s : string) : bool :=
  match v with
  | Str x => String.eqb x s
  | _ => false
  end.

End Dyn.

(** The arguments of a tool call, an object; a property that is not there
    reads as [undefined]. *)
Abbreviation Args := (gmap string Dyn.t).

Definition arg (args : Args) (key : string) : Dyn.t :=
  default Dyn.Undefined (args !! key).

(** JSON data: the schema of a tool and what [JSON.stringify] is applied
    to. *)
Unset Elimination Schemes.
Inductive Json : Type :=
  | JUndefined
  | JNull
  | JBool (b : bool)
  | JNum (n : Z)
  | JStr (s : string)
  | JArr (items : list Json)
  | JObj (properties : list (string * Json)).
Set Elimination Schemes.

(** Texts: [toLowerCase] and [trim] on characters up to 255. *)
Module Text.

(** The lower case of a character: the letters A to Z, and of the upper
    half the letters from 192 to 222 except the sign at 215. *)
Definition lower_char (c : ascii) : ascii :=
  let n := N_of_ascii c in
  if ((65 <=? n) && (n <=? 90) ||
      (192 <=? n) && (n <=? 222) && negb (n =? 215))%N
  then ascii_of_N (n + 32)
  else c.

(** [s.toLowerCase()] *)
Fixpoint toLowerCase (s : string) : string :=
  match s with
  | EmptyString => EmptyString
  | String c s' => String (lower_char c) (toLowerCase s')
  end.

(** White space and line ends, as [trim] takes them off: tab, line feed,
    vertical tab, form feed, carriage return, space, no-break space. *)
Definition is_space (c : ascii) : bool :=
  let n := N_of_ascii c in
  ((9 <=? n) && (n <=? 13) || (n =? 32) || (n =? 160))%N.

Fixpoint trimStart (s : string) : string :=
  match s with
  | EmptyString => EmptyString
  | String c s' => if is_space c then trimStart s' else s
  end.

Fixpoint trimEnd (s : string) : string :=
  match s with
  | EmptyString => EmptyString
  | String c s' =>
      let r := trimEnd s' in
      if is_space c && String.eqb r "" then "" else String c r
  end.

(** [s.trim()] *)
Definition trim (s : string) : string := trimEnd (trimStart s).

(** A text of white space only. *)
Fixpoint blank (s : string) : bool :=
  match s with
  | EmptyString => true
  | String c s' => is_space c && blank s'
  end.

End Text.

(** ** What the servers send back *)

Record ContentItem : Type := {
  type : string;
  text : string
}.

(** The object a tool-call handler returns; [isError] is set in the
    [catch] blocks only. *)
Record ToolResponse : Type := {
  content : list ContentItem;
  isError : option bool
}.

(** The timeout of the request a server builds:
    [timeout ? Math.min(timeout, 30000) : 30000]. *)
Definition request_timeout (timeout : option Z) : Z :=
  match timeout with
  | Some t => if t =? 0 then 30000 else Z.min t 30000
  | None => 30000
  end.

(** The object serialized for a result of the executor; an absent
    [error] is [undefined]. *)
Definition result_object (result : ExecutionResult) : Json :=
  JObj [
    ("success", JBool (success result));
    ("exitCode", JNum (exitCode result));
    ("executionTime", JNum (executionTime result));
    ("stdout", JStr (stdout result));
    ("stderr", JStr (stderr result));
    ("error", match error result with
              | Some e => JStr e
              | None => JUndefined
              end)
  ].

(** The object serialized in a [catch] block of a server. *)
Definition error_object (e : Js.Value) : Json :=
  JObj [
    ("success", JBool false);
    ("error", JStr (Js.error_text e))
  ].

Section Responses.

(** [JSON.stringify(value, null, 2)] of the runtime. *)
Variable JSON_stringify : Json -> string.

Definition result_response (result : ExecutionResult) : ToolResponse := {|
  content := [ {| type := "text"; text := JSON_stringify (result_object result) |} ];
  isError := None
|}.

Definition error_response (e : Js.Value) : ToolResponse := {|
  content := [ {| type := "text"; text := JSON_stringify (error_object e) |} ];
  isError := Some true
|}.

End Responses.

(** ** The server with the one tool ([execute_code]) *)

Module BasicServer.

(** The arguments of [execute_code]; [code] and [language] are tested by
    the handler, [timeout] is a number or absent, as the schema declares
    it. *)
Record ExecuteCodeArgs : Type := {
  arg_code : Dyn.t;
  arg_language : Dyn.t;
  arg_timeout : option Z
}.

Definition missing_code : string :=
  "Missing or invalid " ++ dq ++ "code" ++ dq ++ " parameter".

Definition unsupported_language (language : Dyn.t) : string :=
  "Unsupported language: " ++ Dyn.to_string language ++
  ". Currently only Python is supported.".

Definition unknown_tool (name : string) : string := "Unknown tool: " ++ name.

Section Handlers.

Variable JSON_stringify : Json -> string.

(** The body of the [try] block of [handleExecuteCode] (lines 99-140). *)
Definition handleExecuteCode_body (args : ExecuteCodeArgs) (env : Env) : Exec ToolResponse :=
  if negb (Dyn.truthy (arg_code args)) || negb (Dyn.is_string (arg_code args))
  then lift (Throw (Js.ErrorObject missing_code))
  else
    let language := Dyn.or (arg_language args) (Dyn.Str "python") in
    if negb (Dyn.equals language "python")
    then lift (Throw (Js.ErrorObject (unsupported_language language)))
    else
      let execRequest := {|
        code := Dyn.to_string (arg_code args);
        timeout := Some (request_timeout (arg_timeout args))
      |} in
      result ← execute execRequest env;
      mret (result_response JSON_stringify result).

(** [handleExecuteCode] (lines 98-158) *)
Definition handleExecuteCode (args : ExecuteCodeArgs) (env : Env) : Exec ToolResponse :=
  try_catch
    (handleExecuteCode_body args env)
    (fun error => mret (error_response JSON_stringify error)).

(** The handler of tool calls (lines 86-92). *)
Definition callTool (name : string) (args : ExecuteCodeArgs) (env : Env) : Exec ToolResponse :=
  if String.eqb name "execute_code"
  then handleExecuteCode args env
  else lift (Throw (Js.ErrorObject (unknown_tool name))).

End Handlers.

(** The arguments are turned down by the handler itself: [code] is not a
    string that holds something, or a language is given that is not
    python. *)
Definition rejected (args : ExecuteCodeArgs) : option string :=
  match arg_code args with
  | Dyn.Str s =>
      if String.eqb s "" then Some missing_code
      else if Dyn.truthy (arg_language args) && negb (Dyn.equals (arg_language args) "python")
           then Some (unsupported_language (arg_language args))
           else None
  | _ => Some missing_code
  end.

(** The request built from arguments that are not turned down. *)
Definition request_of (args : ExecuteCodeArgs) : ExecutionRequest := {|
  code := Dyn.to_string (arg_code args);
  timeout := Some (request_timeout (arg_timeout args))
|}.

End BasicServer.

(** ** The tool registry ([intelligent-registry.ts]) *)

Module Registry.

(** A tool as the protocol describes it. *)
Record Tool : Type := {
  name : string;
  description : string;
  inputSchema : Json
}.

Record ToolMetadata : Type := {
  tool : Tool;
  keywords : list string;
  category : string;
  priority : Z
}.

(** A [Map] from tool names: the entries in the order in which their keys
    were first set. *)
Definition ToolMap : Type := list (string * ToolMetadata).

(** [map.set(key, value)]: a key that is there keeps its place and gets
    the new value, a new key goes to the end. *)
Fixpoint map_set (key : string) (value : ToolMetadata) (m : ToolMap) : ToolMap :=
  match m with
  | [] => [(key, value)]
  | (k, v) :: m' =>
      if String.eqb k key then (key, value) :: m'
      else (k, v) :: map_set key value m'
  end.

(** [map.get(key)] *)
Fixpoint map_get (key : string) (m : ToolMap) : option ToolMetadata :=
  match m with
  | [] => None
  | (k, v) :: m' => if String.eqb k key then Some v else map_get key m'
  end.

(** [Array.from(map.values())] *)
Definition values (m : ToolMap) : list ToolMetadata := map snd m.

(** [array.sort(compare)]: the sort of the runtime is stable, and for a
    comparison by a difference of numbers its result is the one of any
    stable sort; here by insertion from the right, an element going
    before the first one it does not have to follow. *)
Section Sort.
Context {A : Type} (compare : A -> A -> Z).

Fixpoint insert (x : A) (l : list A) : list A :=
  match l with
  | [] => [x]
  | y :: l' => if compare x y <=? 0 then x :: y :: l' else y :: insert x l'
  end.

Fixpoint sort (l : list A) : list A :=
  match l with
  | [] => []
  | x :: l' => insert x (sort l')
  end.

End Sort.

(** [register] (lines 22-24) *)
Definition register (metadata : ToolMetadata) (tools : ToolMap) : ToolMap :=
  map_set (name (tool metadata)) metadata tools.

(** [getAllTools] (lines 73-77) *)
Definition getAllTools (tools : ToolMap) : list Tool :=
  map tool (sort (fun a b => priority b - priority a) (values tools)).

Definition fallbackNames : list string := ["execute_code"].

(** [getFallbackTools] (lines 82-87) *)
Definition getFallbackTools (tools : ToolMap) : list Tool :=
  map tool
    (List.filter (fun m => existsb (String.eqb (name (tool m))) fallbackNames)
       (values tools)).

(** [getToolsByCategory] (lines 92-97) *)
Definition getToolsByCategory (tools : ToolMap) (cat : string) : list Tool :=
  map tool
    (sort (fun a b => priority b - priority a)
       (List.filter (fun m => String.eqb (category m) cat) (values tools))).

(** The inner loop of [discoverTools] (lines 43-47): the priority is added
    once for every keyword that the context holds. *)
Definition score_of (contextLower : string) (metadata : ToolMetadata) : Z :=
  fold_left
    (fun score keyword =>
       if Js.includes contextLower (Text.toLowerCase keyword)
       then score + priority metadata
       else score)
    (keywords metadata) 0.

(** The outer loop (lines 39-53): the tools with a score above 0, in the
    order of the map. *)
Fixpoint scoredTools (contextLower : string) (entries : ToolMap) : list (Tool * Z) :=
  match entries with
  | [] => []
  | (_, metadata) :: entries' =>
      let score := score_of contextLower metadata in
      if 0 <? score
      then (tool metadata, score) :: scoredTools contextLower entries'
      else scoredTools contextLower entries'
  end.

(** The test [!context || context.trim() === ''] (line 31). *)
Definition no_context (context : option string) : bool :=
  match context with
  | None => true
  | Some c => String.eqb c "" || String.eqb (Text.trim c) ""
  end.

(** The sorted array of line 56. *)
Definition ranked (tools : ToolMap) (context : string) : list (Tool * Z) :=
  sort (fun a b => snd b - snd a) (scoredTools (Text.toLowerCase context) tools).

(** [discoverTools] (lines 29-68) *)
Definition discoverTools (tools : ToolMap) (context : option string) : list Tool :=
  if no_context context then getAllTools tools
  else
    let discoveredTools := map fst (ranked tools (default "" context)) in
    if Nat.eqb (length discoveredTools) 0
    then getFallbackTools tools
    else discoveredTools.

(** [Array.from(new Set(array))]: the first occurrence of each value, in
    order. *)
Fixpoint unique_from (seen : list string) (l : list string) : list string :=
  match l with
  | [] => []
  | x :: l' =>
      if existsb (String.eqb x) seen then unique_from seen l'
      else x :: unique_from (x :: seen) l'
  end.

Record Stats : Type := {
  totalTools : nat;
  discoveredTools : nat;
  categories : list string
}.

(** [getStats] (lines 102-116) *)
Definition getStats (tools : ToolMap) (context : option string) : Stats :=
  let discovered := discoverTools tools context in
  {| totalTools := length tools;
     discoveredTools := length discovered;
     categories := unique_from [] (map category (values tools)) |}.

(** What [register] keeps: the keys are distinct and each is the name of
    the tool it stands for. *)
Definition well_keyed (tools : ToolMap) : Prop :=
  NoDup (map fst tools) /\
  Forall (fun kv => fst kv = name (tool (snd kv))) tools.

(** The number of keywords of a tool that the context holds. *)
Definition matches (contextLower : string) (metadata : ToolMetadata) : nat :=
  length (List.filter (fun keyword => Js.includes contextLower (Text.toLowerCase keyword))
            (keywords metadata)).

End Registry.

(** ** The tools of the server with discovery ([tools-definitions.ts]) *)

Module Tools.
Import Registry.

Definition analyze_nginx_logs : ToolMetadata := {|
  tool := {|
    name := "analyze_nginx_logs";
    description :=
      "Analyze nginx access logs for errors, traffic patterns, and performance metrics. " ++
      "Returns compact summary instead of raw logs. HUGE TOKEN SAVINGS: 20-50x reduction!";
    inputSchema := JObj [
      ("type", JStr "object");
      ("properties", JObj [
        ("log_file_path", JObj [
          ("type", JStr "string");
          ("description", JStr "Path to nginx access log file")
        ]);
        ("analysis_type", JObj [
          ("type", JStr "string");
          ("enum", JArr [JStr "errors"; JStr "traffic"; JStr "performance";
                         JStr "security"; JStr "full"]);
          ("description", JStr "Type of analysis to perform");
          ("default", JStr "full")
        ])
      ]);
      ("required", JArr [JStr "log_file_path"])
    ]
  |};
  keywords := ["nginx"; "web server"; "access log"; "http"; "web traffic"];
  category := "log-analysis";
  priority := 10
|}.

Definition analyze_docker_logs : ToolMetadata := {|
  tool := {|
    name := "analyze_docker_logs";
    description :=
      "Analyze Docker container logs for errors, warnings, and container health issues. " ++
      "Processes logs locally and returns summary. TOKEN SAVINGS: 30-50x";
    inputSchema := JObj [
      ("type", JStr "object");
      ("properties", JObj [
        ("container_name_or_id", JObj [
          ("type", JStr "string");
          ("description", JStr "Docker container name or ID, or path to docker log file")
        ]);
        ("since", JObj [
          ("type", JStr "string");
          ("description",
           JStr ("Show logs since timestamp (e.g., " ++ dq ++ "2023-01-01T00:00:00" ++ dq ++ ")"))
        ])
      ]);
      ("required", JArr [JStr "container_name_or_id"])
    ]
  |};
  keywords := ["docker"; "container"; "containerized"; "docker log"];
  category := "log-analysis";
  priority := 9
|}.

Definition validate_kubernetes_yaml : ToolMetadata := {|
  tool := {|
    name := "validate_kubernetes_yaml";
    description :=
      "Validate Kubernetes YAML files for syntax, required fields, and best practices. " ++
      "Returns validation results and recommendations. TOKEN SAVINGS: 10-20x";
    inputSchema := JObj [
      ("type", JStr "object");
      ("properties", JObj [
        ("yaml_file_path", JObj [
          ("type", JStr "string");
          ("description", JStr "Path to Kubernetes YAML file")
        ]);
        ("check_best_practices", JObj [
          ("type", JStr "boolean");
          ("description", JStr "Also check for Kubernetes best practices");
          ("default", JBool true)
        ])
      ]);
      ("required", JArr [JStr "yaml_file_path"])
    ]
  |};
  keywords := ["kubernetes"; "k8s"; "kubectl"; "yaml"; "deployment"; "pod"; "service"];
  category := "validation";
  priority := 8
|}.

Definition check_system_health : ToolMetadata := {|
  tool := {|
    name := "check_system_health";
    description :=
      "Check system health metrics: disk space, memory usage, CPU, running processes. " ++
      "Returns only alerts and issues. TOKEN SAVINGS: 5-10x";
    inputSchema := JObj [
      ("type", JStr "object");
      ("properties", JObj [
        ("checks", JObj [
          ("type", JStr "array");
          ("items", JObj [
            ("type", JStr "string");
            ("enum", JArr [JStr "disk"; JStr "memory"; JStr "cpu";
                           JStr "processes"; JStr "all"])
          ]);
          ("description", JStr "Which health checks to perform");
          ("default", JArr [JStr "all"])
        ]);
        ("threshold_disk_percent", JObj [
          ("type", JStr "number");
          ("description", JStr "Disk usage threshold for alerts (default: 80%)");
          ("default", JNum 80)
        ])
      ])
    ]
  |};
  keywords := ["system health"; "disk space"; "memory"; "cpu"; "monitoring"; "health check"];
  category := "system";
  priority := 7
|}.

Definition execute_code : ToolMetadata := {|
  tool := {|
    name := "execute_code";
    description :=
      "Execute Python code in a secure sandbox for custom DevOps tasks. " ++
      "Flexible tool for any scripting needs. TOKEN SAVINGS: Varies by use case";
    inputSchema := JObj [
      ("type", JStr "object");
      ("properties", JObj [
        ("language", JObj [
          ("type", JStr "string");
          ("enum", JArr [JStr "python"]);
          ("description", JStr "Programming language (currently only Python supported)");
          ("default", JStr "python")
        ]);
        ("code", JObj [
          ("type", JStr "string");
          ("description", JStr "The Python code to execute")
        ]);
        ("timeout", JObj [
          ("type", JStr "number");
          ("description",
           JStr "Execution timeout in milliseconds (default: 30000, max: 30000)");
          ("default", JNum 30000);
          ("maximum", JNum 30000)
        ])
      ]);
      ("required", JArr [JStr "code"])
    ]
  |};
  keywords := ["python"; "code"; "script"; "execute"; "run"];
  category := "execution";
  priority := 5
|}.

Definition validate_config_file : ToolMetadata := {|
  tool := {|
    name := "validate_config_file";
    description :=
      "Validate JSON, YAML, or TOML configuration files for syntax and structure. " ++
      "Returns validation results and suggestions. TOKEN SAVINGS: 15-25x";
    inputSchema := JObj [
      ("type", JStr "object");
      ("properties", JObj [
        ("file_path", JObj [
          ("type", JStr "string");
          ("description", JStr "Path to configuration file")
        ]);
        ("file_type", JObj [
          ("type", JStr "string");
          ("enum", JArr [JStr "json"; JStr "yaml"; JStr "toml"; JStr "auto"]);
          ("description", JStr "Configuration file type (auto-detect if not specified)");
          ("default", JStr "auto")
        ])
      ]);
      ("required", JArr [JStr "file_path"])
    ]
  |};
  keywords := ["config"; "configuration"; "json"; "yaml"; "toml"; "validate"];
  category := "validation";
  priority := 6
|}.

Definition analyze_log_patterns : ToolMetadata := {|
  tool := {|
    name := "analyze_log_patterns";
    description :=
      "Analyze any log file for patterns, errors, and anomalies using regex. " ++
      "Generic log analyzer for non-nginx logs. TOKEN SAVINGS: 25-40x";
    inputSchema := JObj [
      ("type", JStr "object");
      ("properties", JObj [
        ("log_file_path", JObj [
          ("type", JStr "string");
          ("description", JStr "Path to log file")
        ]);
        ("pattern", JObj [
          ("type", JStr "string");
          ("description", JStr "Regex pattern to search for (optional)")
        ]);
        ("log_level", JObj [
          ("type", JStr "string");
          ("enum", JArr [JStr "error"; JStr "warn"; JStr "info"; JStr "debug"; JStr "all"]);
          ("description", JStr "Filter by log level");
          ("default", JStr "all")
        ])
      ]);
      ("required", JArr [JStr "log_file_path"])
    ]
  |};
  keywords := ["log"; "application log"; "error log"; "syslog"; "pattern"];
  category := "log-analysis";
  priority := 7
|}.

Definition TOOL_DEFINITIONS : list ToolMetadata := [
  analyze_nginx_logs;
  analyze_docker_logs;
  validate_kubernetes_yaml;
  check_system_health;
  execute_code;
  validate_config_file;
  analyze_log_patterns
].

End Tools.

(** ** The server with discovery ([server-intelligent.ts]) *)

Module IntelligentServer.
Import Registry.

(** [registerTools] (lines 63-68): the registry after the loop. *)
Definition registerTools : ToolMap :=
  fold_left (fun tools toolDef => register toolDef tools) Tools.TOOL_DEFINITIONS [].

(** The field [lastUserQuery] (line 33): set to the empty string when the
    server is made, and assigned nowhere. *)
Definition lastUserQuery : string := "".

(** The handler of the tool list (lines 76-92): the tools it returns. *)
Definition listTools : list Tool :=
  discoverTools registerTools (Some lastUserQuery).

(** The methods that the [switch] of the tool-call handler (lines 102-126)
    can reach. *)
Inductive Handler : Type :=
  | HandleAnalyzeNginxLogs
  | HandleAnalyzeDockerLogs
  | HandleValidateK8sYaml
  | HandleSystemHealth
  | HandleExecuteCode
  | HandleValidateConfig
  | HandleAnalyzeLogPatterns.

(** The [switch]: the method for a tool name, or none, where the default
    branch throws [Unknown tool]. *)
Definition route (toolName : string) : option Handler :=
  if String.eqb toolName "analyze_nginx_logs" then Some HandleAnalyzeNginxLogs
  else if String.eqb toolName "analyze_docker_logs" then Some HandleAnalyzeDockerLogs
  else if String.eqb toolName "validate_kubernetes_yaml" then Some HandleValidateK8sYaml
  else if String.eqb toolName "check_system_health" then Some HandleSystemHealth
  else if String.eqb toolName "execute_code" then Some HandleExecuteCode
  else if String.eqb toolName "validate_config_file" then Some HandleValidateConfig
  else if String.eqb toolName "analyze_log_patterns" then Some HandleAnalyzeLogPatterns
  else None.

(** The scripts of the handlers: the template literals with the
    arguments put in. *)

(** [handleAnalyzeNginxLogs], lines 134-148 *)
Definition nginx_code (args : Args) : string :=
    nl ++
    "import json" ++ nl ++
    "import re" ++ nl ++
    "from collections import Counter" ++ nl ++
    nl ++
    "log_file = " ++ dq ++ Dyn.to_string (arg args "log_file_path") ++ dq ++ nl ++
    "analysis_type = " ++ dq ++ Dyn.to_string (Dyn.or (arg args "analysis_type") (Dyn.Str "full")) ++ dq ++ nl ++
    nl ++
    "# Load pre-built analyzer" ++ nl ++
    "with open('examples/analyze-logs.py', 'r') as f:" ++ nl ++
    "    exec(f.read())" ++ nl ++
    nl ++
    "result = parse_nginx_log(log_file)" ++ nl ++
    "print(json.dumps(result, indent=2))" ++ nl.

(** [handleAnalyzeDockerLogs], lines 157-167 *)
Definition docker_code (args : Args) : string :=
    nl ++
    "import json" ++ nl ++
    nl ++
    "# Docker logs are typically in /var/lib/docker/containers/ or provided path" ++ nl ++
    "log_path = " ++ dq ++ Dyn.to_string (arg args "container_name_or_id") ++ dq ++ nl ++
    "print(json.dumps({" ++ nl ++
    "    " ++ dq ++ "message" ++ dq ++ ": " ++ dq ++ "Docker log analysis" ++ dq ++ "," ++ nl ++
    "    " ++ dq ++ "container" ++ dq ++ ": log_path," ++ nl ++
    "    " ++ dq ++ "note" ++ dq ++ ": " ++ dq ++ "Analyze docker logs here - implementation specific to environment" ++ dq ++ nl ++
    "}))" ++ nl.

(** [handleValidateK8sYaml], lines 176-202 *)
Definition k8s_code (args : Args) : string :=
    nl ++
    "import json" ++ nl ++
    "import yaml" ++ nl ++
    nl ++
    "try:" ++ nl ++
    "    with open(" ++ dq ++ Dyn.to_string (arg args "yaml_file_path") ++ dq ++ ", 'r') as f:" ++ nl ++
    "        docs = list(yaml.safe_load_all(f))" ++ nl ++
    nl ++
    "    results = {" ++ nl ++
    "        " ++ dq ++ "valid" ++ dq ++ ": True," ++ nl ++
    "        " ++ dq ++ "documents" ++ dq ++ ": len(docs)," ++ nl ++
    "        " ++ dq ++ "resources" ++ dq ++ ": [doc.get('kind', 'Unknown') for doc in docs if doc]," ++ nl ++
    "        " ++ dq ++ "recommendations" ++ dq ++ ": []" ++ nl ++
    "    }" ++ nl ++
    nl ++
    "    # Check best practices" ++ nl ++
    "    if " ++ Dyn.to_string (Dyn.or (arg args "check_best_practices") (Dyn.Bool true)) ++ ":" ++ nl ++
    "        for doc in docs:" ++ nl ++
    "            if not doc:" ++ nl ++
    "                continue" ++ nl ++
    "            if 'resources' not in doc.get('spec', {}).get('template', {}).get('spec', {}).get('containers', [{}])[0]:" ++ nl ++
    "                results[" ++ dq ++ "recommendations" ++ dq ++ "].append(" ++ dq ++ "Consider adding resource limits/requests" ++ dq ++ ")" ++ nl ++
    nl ++
    "    print(json.dumps(results, indent=2))" ++ nl ++
    "except Exception as e:" ++ nl ++
    "    print(json.dumps({" ++ dq ++ "valid" ++ dq ++ ": False, " ++ dq ++ "error" ++ dq ++ ": str(e)}))" ++ nl.

(** [handleSystemHealth], lines 211-231 *)
Definition health_code (args : Args) : string :=
    nl ++
    "import json" ++ nl ++
    "import shutil" ++ nl ++
    nl ++
    "# Check disk space" ++ nl ++
    "total, used, free = shutil.disk_usage(" ++ dq ++ "/" ++ dq ++ ")" ++ nl ++
    "disk_percent = (used / total) * 100" ++ nl ++
    nl ++
    "result = {" ++ nl ++
    "    " ++ dq ++ "disk" ++ dq ++ ": {" ++ nl ++
    "        " ++ dq ++ "total_gb" ++ dq ++ ": round(total / (1024**3), 2)," ++ nl ++
    "        " ++ dq ++ "used_gb" ++ dq ++ ": round(used / (1024**3), 2)," ++ nl ++
    "        " ++ dq ++ "free_gb" ++ dq ++ ": round(free / (1024**3), 2)," ++ nl ++
    "        " ++ dq ++ "used_percent" ++ dq ++ ": round(disk_percent, 2)," ++ nl ++
    "        " ++ dq ++ "alert" ++ dq ++ ": disk_percent > " ++ Dyn.to_string (Dyn.or (arg args "threshold_disk_percent") (Dyn.Num 80)) ++ nl ++
    "    }," ++ nl ++
    "    " ++ dq ++ "overall_health" ++ dq ++ ": " ++ dq ++ "OK" ++ dq ++ " if disk_percent < " ++ Dyn.to_string (Dyn.or (arg args "threshold_disk_percent") (Dyn.Num 80)) ++ " else " ++ dq ++ "WARNING" ++ dq ++ nl ++
    "}" ++ nl ++
    nl ++
    "print(json.dumps(result, indent=2))" ++ nl.

(** [handleValidateConfig], lines 247-272 *)
Definition config_code (args : Args) : string :=
    nl ++
    "import json" ++ nl ++
    "import yaml" ++ nl ++
    nl ++
    "try:" ++ nl ++
    "    with open(" ++ dq ++ Dyn.to_string (arg args "file_path") ++ dq ++ ", 'r') as f:" ++ nl ++
    "        content = f.read()" ++ nl ++
    nl ++
    "    file_type = " ++ dq ++ Dyn.to_string (arg args "file_type") ++ dq ++ nl ++
    "    if file_type == " ++ dq ++ "auto" ++ dq ++ ":" ++ nl ++
    "        file_type = " ++ dq ++ Dyn.to_string (arg args "file_path") ++ dq ++ ".split('.')[-1]" ++ nl ++
    nl ++
    "    if file_type in ['yaml', 'yml']:" ++ nl ++
    "        data = yaml.safe_load(content)" ++ nl ++
    "    elif file_type == 'json':" ++ nl ++
    "        data = json.loads(content)" ++ nl ++
    nl ++
    "    result = {" ++ nl ++
    "        " ++ dq ++ "valid" ++ dq ++ ": True," ++ nl ++
    "        " ++ dq ++ "file_type" ++ dq ++ ": file_type," ++ nl ++
    "        " ++ dq ++ "keys" ++ dq ++ ": list(data.keys()) if isinstance(data, dict) else None" ++ nl ++
    "    }" ++ nl ++
    "    print(json.dumps(result, indent=2))" ++ nl ++
    "except Exception as e:" ++ nl ++
    "    print(json.dumps({" ++ dq ++ "valid" ++ dq ++ ": False, " ++ dq ++ "error" ++ dq ++ ": str(e)}))" ++ nl.

(** [handleAnalyzeLogPatterns], lines 281-298 *)
Definition patterns_code (args : Args) : string :=
  let pattern := Dyn.or (arg args "pattern") (Dyn.Str "ERROR|WARN|CRITICAL") in
    nl ++
    "import json" ++ nl ++
    "import re" ++ nl ++
    nl ++
    "matches = []" ++ nl ++
    "with open(" ++ dq ++ Dyn.to_string (arg args "log_file_path") ++ dq ++ ", 'r') as f:" ++ nl ++
    "    for i, line in enumerate(f, 1):" ++ nl ++
    "        if re.search(r" ++ dq ++ Dyn.to_string pattern ++ dq ++ ", line, re.IGNORECASE):" ++ nl ++
    "            matches.append({" ++ dq ++ "line" ++ dq ++ ": i, " ++ dq ++ "content" ++ dq ++ ": line.strip()[:100]})" ++ nl ++
    nl ++
    "result = {" ++ nl ++
    "    " ++ dq ++ "total_matches" ++ dq ++ ": len(matches)," ++ nl ++
    "    " ++ dq ++ "pattern" ++ dq ++ ": " ++ dq ++ Dyn.to_string pattern ++ dq ++ "," ++ nl ++
    "    " ++ dq ++ "matches" ++ dq ++ ": matches[:10]  # Top 10" ++ nl ++
    "}" ++ nl ++
    "print(json.dumps(result, indent=2))" ++ nl.

Section Handlers.

Variable JSON_stringify : Json -> string.

(** [executePythonCode] (lines 306-353) *)
Definition executePythonCode (code : string) (timeout : option Z) (env : Env)
    : Exec ToolResponse :=
  try_catch
    (let execRequest := {| code := code; timeout := Some (request_timeout timeout) |} in
     result ← execute execRequest env;
     mret (result_response JSON_stringify result))
    (fun error => mret (error_response JSON_stringify error)).

Definition handleAnalyzeNginxLogs (args : Args) (env : Env) : Exec ToolResponse :=
  executePythonCode (nginx_code args) None env.

Definition handleAnalyzeDockerLogs (args : Args) (env : Env) : Exec ToolResponse :=
  executePythonCode (docker_code args) None env.

Definition handleValidateK8sYaml (args : Args) (env : Env) : Exec ToolResponse :=
  executePythonCode (k8s_code args) None env.

Definition handleSystemHealth (args : Args) (env : Env) : Exec ToolResponse :=
  executePythonCode (health_code args) None env.

Definition handleValidateConfig (args : Args) (env : Env) : Exec ToolResponse :=
  executePythonCode (config_code args) None env.

Definition handleAnalyzeLogPatterns (args : Args) (env : Env) : Exec ToolResponse :=
  executePythonCode (patterns_code args) None env.

End Handlers.

(** The scripts that are fixed but for their arguments. *)
Definition template_of (h : Handler) : option (Args -> string) :=
  match h with
  | HandleAnalyzeNginxLogs => Some nginx_code
  | HandleAnalyzeDockerLogs => Some docker_code
  | HandleValidateK8sYaml => Some k8s_code
  | HandleSystemHealth => Some health_code
  | HandleExecuteCode => None
  | HandleValidateConfig => Some config_code
  | HandleAnalyzeLogPatterns => Some patterns_code
  end.

End IntelligentServer.

(** ** Facts about strings *)

Section StringFacts.




Lemma append_assoc (a b c : string) : ((a ++ b) ++ c = a ++ (b ++ c))%string.
Proof.
  induction a as [|x a IH]; [reflexivity|].
  change (String x ((a ++ b) ++ c) = String x (a ++ (b ++ c)))%string.
  now rewrite IH.
Qed.

Lemma append_nil_r (a : string) : (a ++ "" = a)%string.
Proof.
  induction a as [|x a IH]; [reflexivity|].
  change (String x (a ++ "") = String x a)%string. now rewrite IH.
Qed.

Lemma strlen_app (a b : string) : Js.strlen (a ++ b) = Js.strlen a + Js.strlen b.
Proof.
  unfold Js.strlen. rewrite <- Nat2Z.inj_add. f_equal.
  induction a as [|c a IH]; simpl; [reflexivity | now rewrite IH].
Qed.

Lemma strlen_nonneg (a : string) : 0 <= Js.strlen a.
Proof. unfold Js.strlen. lia. Qed.

Lemma strlen_repeat (s : string) (n : Z) :
  0 <= n -> Js.strlen (Js.repeat s n) = n * Js.strlen s.
Proof.
  unfold Js.repeat. destruct n as [|p|p]; [reflexivity | | lia]. intros _.
  cbn [Z.iter]. induction p as [|p IH] using Pos.peano_ind.
  - cbn [Pos.iter]. rewrite strlen_app.
    change (Js.strlen "") with 0. lia.
  - rewrite Pos.iter_succ, strlen_app, IH. lia.
Qed.

End StringFacts.

(** ** Facts about the callbacks *)

Module ChildFacts.
Import Child.

Ltac handlers :=
  unfold step, on_stdout, on_stderr, on_spawn_timeout, on_timeout, on_grace,
    on_close, on_error, on_exit, resolve, clear_timer, set_killed, set_proc,
    kill, exited in *;
  cbn [stdout stderr killed proc spawn_timer timer grace_timer promise
       handle proc_killed kills negb] in *.

Ltac split_ifs :=
  repeat match goal with
    | |- context [match ?x with _ => _ end] => destruct x eqn:?;
        cbn [stdout stderr killed proc spawn_timer timer grace_timer promise
             handle proc_killed kills negb] in *
    end.

(** Case analysis on the tests of the callbacks only. *)
Ltac split_tests :=
  repeat match goal with
    | |- context [match ?x with _ => _ end] =>
        lazymatch type of x with
        | bool => idtac
        | option _ => idtac
        end;
        destruct x eqn:?;
        cbn [stdout stderr killed proc spawn_timer timer grace_timer promise
             handle proc_killed kills negb] in *
    end.

Lemma fold_invariant (Inv : State -> Prop) :
  (forall s e, Inv s -> Inv (step s e)) ->
  forall evs s, Inv s -> Inv (fold_left step evs s).
Proof.
  intros Hstep evs. induction evs as [|e evs IH]; intros s Hs; simpl; auto.
Qed.

Lemma run_app t (a b : list Event) :
  run t (a ++ b)%list = fold_left step b (run t a).
Proof. unfold run. apply fold_left_app. Qed.

(** *** The value of the promise *)

Lemma step_shape s e :
  (forall r, promise s = Some r -> settled_shape r) ->
  forall r, promise (step s e) = Some r -> settled_shape r.
Proof.
  intros Hs r. destruct e; handlers; split_ifs; intros Hr;
    try (apply Hs; assumption);
    try (rewrite Hr in *; apply Hs; congruence);
    try (inversion Hr; subst; constructor).
Qed.

Lemma promise_shape t evs r :
  promise (run t evs) = Some r -> settled_shape r.
Proof.
  revert r. unfold run.
  apply (fold_invariant (fun s => forall r, promise s = Some r -> settled_shape r)).
  - apply step_shape.
  - intros r Hr. discriminate Hr.
Qed.

(** *** Settling *)

Lemma step_settled s e r : promise s = Some r -> promise (step s e) = Some r.
Proof. intros Hr. destruct e; handlers; split_ifs; congruence. Qed.

Lemma fold_settled evs s r :
  promise s = Some r -> promise (fold_left step evs s) = Some r.
Proof.
  revert s. induction evs as [|e evs IH]; intros s Hr; simpl; auto using step_settled.
Qed.

Lemma step_settles s e : is_settling e = true -> promise (step s e) <> None.
Proof. destruct e; try discriminate; intros _; handlers; split_ifs; congruence. Qed.

Lemma step_unsettled s e :
  is_settling e = false -> promise s = None -> promise (step s e) = None.
Proof. destruct e; try discriminate; intros _ Hs; handlers; split_ifs; congruence. Qed.

Lemma fold_settles evs s :
  existsb is_settling evs = true -> promise (fold_left step evs s) <> None.
Proof.
  revert s. induction evs as [|e evs IH]; intros s H; simpl in *; [discriminate|].
  destruct (is_settling e) eqn:He.
  - pose proof (step_settles s e He) as Hn.
    destruct (promise (step s e)) as [r|] eqn:Hp; [|congruence].
    now rewrite (fold_settled evs _ r Hp).
  - apply IH. exact H.
Qed.

Lemma fold_unsettled evs s :
  existsb is_settling evs = false -> promise s = None ->
  promise (fold_left step evs s) = None.
Proof.
  revert s. induction evs as [|e evs IH]; intros s H Hs; simpl in *; [exact Hs|].
  apply orb_false_elim in H as [He H].
  apply IH; [exact H | now apply step_unsettled].
Qed.

(** The promise is settled exactly when a 'close' or an 'error' arrives. *)
Lemma run_settles t evs :
  promise (run t evs) <> None <-> existsb is_settling evs = true.
Proof.
  split.
  - intros H. destruct (existsb is_settling evs) eqn:E; [reflexivity|].
    exfalso. apply H. now apply fold_unsettled.
  - apply fold_settles.
Qed.

(** *** The accumulators *)

Lemma fold_out evs s :
  stdout (fold_left step evs s) = (stdout s ++ stdout_of evs)%string.
Proof.
  revert s. induction evs as [|e evs IH]; intros s; simpl.
  - now rewrite append_nil_r.
  - rewrite IH. destruct e; handlers; split_ifs; try reflexivity;
      now rewrite append_assoc.
Qed.

Lemma fold_err evs s :
  stderr (fold_left step evs s) = (stderr s ++ stderr_of evs)%string.
Proof.
  revert s. induction evs as [|e evs IH]; intros s; simpl.
  - now rewrite append_nil_r.
  - rewrite IH. destruct e; handlers; split_ifs; try reflexivity;
      now rewrite append_assoc.
Qed.

Lemma run_out t evs : stdout (run t evs) = stdout_of evs.
Proof. unfold run. now rewrite fold_out. Qed.

Lemma run_err t evs : stderr (run t evs) = stderr_of evs.
Proof. unfold run. now rewrite fold_err. Qed.



(** *** The signals *)

Lemma step_grace_inv s e : grace_inv s -> grace_inv (step s e).
Proof.
  unfold grace_inv. intros [Hg Hk].
  destruct e; handlers; split_ifs; split;
    try (intros _; auto; fail);
    try (intros H; exfalso; apply H; reflexivity);
    try assumption;
    try (intros H; apply Hg in H; destruct H; [left|right]; congruence);
    try (rewrite in_app_iff; intros [H|[H|[]]]; [auto | discriminate H]);
    try tauto.
  (* the grace callback with [proc.killed] unset: the handle is gone *)
  exfalso. destruct Hg as [H|H]; [congruence | | discriminate H].
  rewrite H in *. discriminate.
Qed.

(** SIGKILL never reaches a running child. *)
Lemma sigkill_never_delivered t evs :
  ~ In (SIGKILL, true) (kills (proc (run t evs))).
Proof.
  unfold run. apply (fold_invariant grace_inv).
  - apply step_grace_inv.
  - split; [intros H; now elim H | intros []].
Qed.

Lemma head_snoc (l : list (Signal * bool)) (x : Signal * bool) :
  match l with
  | [] => True
  | (sig, _) :: _ => sig = SIGTERM
  end ->
  (l = [] -> fst x = SIGTERM) ->
  match (l ++ [x])%list with
  | [] => True
  | (sig, _) :: _ => sig = SIGTERM
  end.
Proof.
  destruct l as [|[sig d] l]; simpl; intros H Hx; [|exact H].
  destruct x as [sig d]. now apply Hx.
Qed.

Lemma step_order_inv s e : order_inv s -> order_inv (step s e).
Proof.
  unfold order_inv. intros [Hg Hh].
  destruct e; handlers; split_tests; split;
    try assumption;
    try (intros _; now destruct (kills (proc s)));
    try (apply head_snoc; [assumption | reflexivity]);
    try (intros H; now elim H).
  all: apply head_snoc; [assumption|].
  all: intros Hnil; exfalso; apply Hg; [congruence | exact Hnil].
Qed.

(** X8. Whenever SIGKILL is attempted, SIGTERM was attempted before it:
    in the log of the calls of [kill], by the callbacks and by the
    runtime's timer, every SIGKILL has a SIGTERM before it. *)
Lemma sigterm_before_sigkill t evs a d c :
  kills (proc (run t evs)) = (a ++ (SIGKILL, d) :: c)%list ->
  exists d', In (SIGTERM, d') a.
Proof.
  intros Hk.
  assert (Hinv : order_inv (run t evs)).
  { unfold run. apply (fold_invariant order_inv).
    - apply step_order_inv.
    - split; [intros H; now elim H | exact I]. }
  destruct Hinv as [_ Hh]. rewrite Hk in Hh.
  destruct a as [|[sig d'] a]; simpl in Hh; [discriminate Hh|].
  subst sig. exists d'. now left.
Qed.

(** *** A child that ends on its own *)

Lemma calm_not_settling e : is_calm e = true -> is_settling e = false.
Proof. now destruct e. Qed.

Lemma calm_unsettled evs :
  forallb is_calm evs = true -> existsb is_settling evs = false.
Proof.
  induction evs as [|e evs IH]; simpl; [reflexivity|].
  intros [He H]%andb_prop. now rewrite (calm_not_settling e He), IH.
Qed.

Lemma fold_not_killed evs s :
  forallb is_calm evs = true ->
  killed s = false ->
  Js.strlen (stdout s) + Js.strlen (stdout_of evs) <= 1000000 ->
  Js.strlen (stderr s) + Js.strlen (stderr_of evs) <= 1000000 ->
  killed (fold_left step evs s) = false.
Proof.
  revert s. induction evs as [|e evs IH]; intros s Hc Hk Ho He; [exact Hk|].
  simpl in Hc. apply andb_prop in Hc as [Hce Hc].
  pose proof (strlen_nonneg (stdout_of evs)).
  pose proof (strlen_nonneg (stderr_of evs)).
  destruct e; try discriminate Hce; cbn [fold_left stdout_of stderr_of] in *;
    rewrite ?strlen_app in *; apply IH; try assumption; handlers;
    rewrite ?strlen_app;
    repeat match goal with
      | |- context [?a <? ?b] => destruct (Z.ltb_spec a b); try lia
      end;
    cbn [stdout stderr killed]; rewrite ?strlen_app; try assumption; try lia.
Qed.

Lemma own_completion_state t evs :
  own_completion evs ->
  killed (run t evs) = false /\ promise (run t evs) = None.
Proof.
  intros (Hc & Ho & He). split.
  - apply fold_not_killed; auto.
  - apply fold_unsettled; [now apply calm_unsettled | reflexivity].
Qed.

(** *** A child that is made to end *)




(** The first 'close' after events that do not settle resolves the
    promise, and nothing later replaces its value. *)
Lemma close_resolves t pre code post :
  existsb is_settling pre = false ->
  promise (run t (pre ++ Close code :: post)%list) =
    Some (if killed (run t pre)
          then forced_result (stdout_of pre) (stderr_of pre)
          else exit_result code (stdout_of pre) (stderr_of pre)).
Proof.
  intros Hpre. rewrite run_app. cbn [fold_left]. apply fold_settled.
  pose proof (fold_unsettled pre (spawned t) Hpre eq_refl) as Hp.
  fold (run t pre) in Hp.
  handlers. rewrite Hp, run_out, run_err. now destruct (killed (run t pre)).
Qed.

End ChildFacts.

(** ** Facts about [execute] *)

Ltac run_execute :=
  unfold result_of, files_of, execute, try_catch, lift, mbind, exec_bind,
    mret, exec_ret, mkdtemp, writeFile, rm, await_child, executeProcess;
  cbn [fst snd].

Lemma validateCode_cases (c : string) :
  validateCode c = Normal tt \/ exists m, validateCode c = Throw (Js.ErrorObject m).
Proof.
  unfold validateCode.
  destruct (first_blocked _ c); [right; eauto|].
  destruct (100000 <? Js.strlen c); [right; eauto | now left].
Qed.

(** What [execute] returns once the promise of [executeProcess] holds a
    value: that value with its time when the removal succeeds, the object
    of the [catch] block when the removal fails. *)
Lemma execute_settled req env fs r :
  child_started req env ->
  Child.promise (Child.run (effective_timeout req) (child_events env)) = Some r ->
  result_of (execute req env fs) =
    match rm_outcome env with
    | None => Normal (with_executionTime r (now_end env - now_start env))
    | Some e => Normal (failure_result env e)
    end.
Proof.
  intros (Hv & [suffix Hm] & Hw & Hs) Hp. run_execute.
  rewrite Hv, Hm, Hw, Hs, Hp. cbn. now destruct (rm_outcome env).
Qed.

Lemma execute_outcomes req env fs :
  execute_outcome req env (result_of (execute req env fs)).
Proof.
  run_execute.
  destruct (validateCode_cases (code req)) as [Hv | [m Hv]]; rewrite Hv;
    [|apply outcome_caught].
  destruct (mkdtemp_outcome env) as [e|suffix] eqn:Hm; [apply outcome_caught|].
  cbn. destruct (writeFile_outcome env) as [e|] eqn:Hw; [apply outcome_caught|].
  destruct (spawn_outcome env) as [e|] eqn:Hs; [apply outcome_caught|].
  assert (Hstart : child_started req env) by (repeat split; eauto).
  destruct (Child.promise _) as [r|] eqn:Hp; cbn.
  - destruct (rm_outcome env) as [e|] eqn:Hr; [apply outcome_caught|].
    now apply outcome_settled.
  - now apply outcome_pending.
Qed.

(** ** The claims *)

(** C7. Every result that [execute] returns with [success] set has exit
    code 0 and no [error] field. *)
Theorem success_implies_clean_exit req env fs r :
  result_of (execute req env fs) = Normal r ->
  success r = true ->
  exitCode r = 0 /\ error r = None.
Proof.
  intros Hr Hs. pose proof (execute_outcomes req env fs) as Ho.
  rewrite Hr in Ho. inversion Ho as [e He | r0 _ _ Hp He | ]; subst r.
  - discriminate Hs.
  - apply ChildFacts.promise_shape in Hp. destruct Hp as [o e | c o e | m o e];
      cbn in *; try discriminate Hs.
    destruct c as [c|]; cbn in *; [|discriminate Hs].
    apply Z.eqb_eq in Hs. subst c. now split.
Qed.

Lemma success_implies_clean_exit_witness :
  exists r, result_of (execute req_print (env_of None events_ok None) ∅) = Normal r /\
            success r = true /\ exitCode r = 0 /\ error r = None.
Proof.
  eexists. split; [vm_compute; reflexivity|]. split; [reflexivity|].
  apply (success_implies_clean_exit req_print (env_of None events_ok None) ∅);
    vm_compute; reflexivity.
Defined.



(** [execute] never throws: whatever is thrown inside it, by the
    validation, by the preparation of the scope, by spawn or by the
    removal, becomes the result of the [catch] block.  It is pending only
    while the child has started and neither its 'close' nor its 'error'
    has arrived, and returns a result as soon as one of them arrives.
    What is thrown before the child runs comes back as the result with
    [success] false and that text as [error].  A result with [success]
    set is one in which nothing was thrown and the
    promise was resolved by 'close' with code 0 and [killed] unset; every
    other result has [success] false. *)
Theorem execute_never_throws req env fs :
  (forall e, result_of (execute req env fs) <> Throw e) /\
  (result_of (execute req env fs) = Pending ->
   child_started req env /\
   existsb Child.is_settling (child_events env) = false) /\
  (existsb Child.is_settling (child_events env) = true ->
   exists r, result_of (execute req env fs) = Normal r) /\
  (forall e, thrown_before_child req env = Some e ->
     result_of (execute req env fs) = Normal (failure_result env e)) /\
  (forall r, result_of (execute req env fs) = Normal r ->
     success r = true ->
     child_started req env /\ rm_outcome env = None /\
     exists o c,
       Child.promise (Child.run (effective_timeout req) (child_events env))
         = Some (Child.exit_result (Some 0) o c)).
Proof.
  pose proof (execute_outcomes req env fs) as Ho.
  split; [|split; [|split; [|split]]].
  - intros e He. rewrite He in Ho. inversion Ho.
  - intros Hp. rewrite Hp in Ho. inversion Ho as [ | | Hc Hn]. split; [exact Hc|].
    destruct (existsb Child.is_settling (child_events env)) eqn:E; [|reflexivity].
    exfalso. revert Hn. now apply ChildFacts.run_settles.
  - intros Hs. inversion Ho as [e He | r0 _ _ _ He | _ Hp He]; eauto.
    exfalso. revert Hp. now apply ChildFacts.run_settles.
  - intros e. unfold thrown_before_child. run_execute.
    destruct (validateCode_cases (code req)) as [Hv | [m Hv]]; rewrite Hv;
      [|now intros [= <-]].
    destruct (mkdtemp_outcome env) as [e'|suffix]; [now intros [= <-]|]. cbn.
    destruct (writeFile_outcome env) as [e'|]; [now intros [= <-]|].
    now intros ->.
  - intros r Hr Hs. rewrite Hr in Ho.
    inversion Ho as [e He | r0 Hc Hrm Hp He | ]; subst r; [discriminate Hs|].
    split; [exact Hc|]. split; [exact Hrm|].
    pose proof (ChildFacts.promise_shape _ _ _ Hp) as Hsh.
    destruct Hsh as [o c | [code|] o c | m o c]; cbn in Hs; try discriminate Hs.
    apply Z.eqb_eq in Hs. subst code. now exists o, c.
Qed.

Lemma execute_never_throws_witness :
  existsb Child.is_settling (child_events (env_of None events_ok None)) = true /\
  exists r, result_of (execute req_print (env_of None events_ok None) ∅) = Normal r.
Proof.
  split; [reflexivity|].
  apply (execute_never_throws req_print (env_of None events_ok None) ∅).
  reflexivity.
Defined.

(** While the child has started and neither 'close' nor 'error' has
    arrived, [execute] has returned nothing. *)
Lemma execute_pending req env fs :
  child_started req env ->
  existsb Child.is_settling (child_events env) = false ->
  result_of (execute req env fs) = Pending.
Proof.
  intros (Hv & [suffix Hm] & Hw & Hs) Hn. run_execute.
  rewrite Hv, Hm, Hw, Hs. cbn. unfold Child.run.
  now rewrite (ChildFacts.fold_unsettled (child_events env)
                 (Child.spawned (effective_timeout req)) Hn eq_refl).
Qed.

(** C6, at a script that ignores SIGTERM and loops, run with a timeout of
    200 ms.  The script passes the validation and the child starts.  The
    two timers fire and the SIGTERM is delivered; the grace timer fires a
    second later and sends nothing, because [proc.killed] is already set.
    The child keeps running, so no 'close' arrives, the promise that
    [execute] awaits stays pending and [execute] returns no result.
    Nothing that can follow while the child runs, output or a timer,
    changes that. *)
Theorem execute_pending_when_sigterm_ignored :
  let env := env_of None events_sigterm_ignored None in
  let state := Child.run (effective_timeout req_ignoring_sigterm) events_sigterm_ignored in
  child_started req_ignoring_sigterm env /\
  Child.kills (Child.proc state) = [(Child.SIGTERM, true)] /\
  Child.handle (Child.proc state) = true /\
  result_of (execute req_ignoring_sigterm env ∅) = Pending /\
  (forall later,
     existsb Child.is_settling later = false ->
     result_of (execute req_ignoring_sigterm
                  (with_events env (events_sigterm_ignored ++ later)%list) ∅) = Pending).
Proof.
  cbv zeta.
  assert (Hc : child_started req_ignoring_sigterm (env_of None events_sigterm_ignored None)).
  { repeat split; try (vm_compute; reflexivity). now exists "AbC123". }
  split; [exact Hc|]. split; [vm_compute; reflexivity|].
  split; [vm_compute; reflexivity|]. split.
  - apply execute_pending; [exact Hc | reflexivity].
  - intros later Hl. apply execute_pending; [exact Hc|].
    cbn [child_events with_events]. rewrite existsb_app, Hl. reflexivity.
Qed.

(** What each failing stage turns into. *)
Lemma validation_rejection_result req env fs e :
  validateCode (code req) = Throw e ->
  execute req env fs = (Normal (failure_result env e), fs).
Proof. intros Hv. run_execute. now rewrite Hv. Qed.

Lemma prepare_failure_result req env fs :
  validateCode (code req) = Normal tt ->
  (forall e, mkdtemp_outcome env = inl e ->
     execute req env fs = (Normal (failure_result env e), fs)) /\
  (forall suffix e, mkdtemp_outcome env = inr suffix ->
     writeFile_outcome env = Some e ->
     result_of (execute req env fs) = Normal (failure_result env e)).
Proof.
  intros Hv. split.
  - intros e Hm. run_execute. now rewrite Hv, Hm.
  - intros suffix e Hm Hw. run_execute. now rewrite Hv, Hm, Hw.
Qed.

Lemma spawn_throw_result req env fs suffix e :
  validateCode (code req) = Normal tt ->
  mkdtemp_outcome env = inr suffix ->
  writeFile_outcome env = None ->
  spawn_outcome env = Some e ->
  result_of (execute req env fs) = Normal (failure_result env e).
Proof. intros Hv Hm Hw Hs. run_execute. now rewrite Hv, Hm, Hw, Hs. Qed.

(** *** Validation *)

Lemma first_blocked_Some bl c b :
  first_blocked bl c = Some b -> In b bl /\ Js.includes c b = true.
Proof.
  induction bl as [|x bl IH]; simpl; [discriminate|].
  destruct (Js.includes c x) eqn:Hx.
  - intros [= <-]. auto.
  - intros H. apply IH in H as [H1 H2]. auto.
Qed.

Lemma first_blocked_None bl c :
  first_blocked bl c = None -> forall b, In b bl -> Js.includes c b = false.
Proof.
  induction bl as [|x bl IH]; simpl; [intros _ b []|].
  destruct (Js.includes c x) eqn:Hx; [discriminate|].
  intros H b [<- | Hb]; auto.
Qed.

(** C4, as the code has it.  A text of more than 100000 characters is
    always rejected; the deny list is scanned before the length is
    checked, so the reason is the size only when the text holds no blocked
    command, and otherwise the security violation for the first entry of
    the list that it holds. *)
Theorem validateCode_oversize (c : string) :
  100000 < Js.strlen c ->
  match first_blocked denylist c with
  | Some b =>
      In b denylist /\ Js.includes c b = true /\
      validateCode c = Throw (Js.ErrorObject (security_violation b))
  | None =>
      (forall b, In b denylist -> Js.includes c b = false) /\
      validateCode c = Throw (Js.ErrorObject code_too_large)
  end.
Proof.
  intros Hlen. unfold validateCode.
  destruct (first_blocked denylist c) as [b|] eqn:Hb.
  - apply first_blocked_Some in Hb as [H1 H2]. auto.
  - split; [now apply first_blocked_None|].
    destruct (Z.ltb_spec 100000 (Js.strlen c)); [reflexivity | lia].
Qed.

Lemma validateCode_oversize_witness :
  100000 < Js.strlen oversize_plain /\
  validateCode oversize_plain = Throw (Js.ErrorObject code_too_large).
Proof.
  assert (Hlen : 100000 < Js.strlen oversize_plain) by (vm_compute; reflexivity).
  split; [exact Hlen|].
  pose proof (validateCode_oversize oversize_plain Hlen) as H.
  assert (Hb : first_blocked denylist oversize_plain = None)
    by (vm_compute; reflexivity).
  rewrite Hb in H. exact (proj2 H).
Defined.

(** C4, as stated, fails: a text over the limit that holds [sudo] is
    rejected for the security violation, not for its size. *)
Lemma oversize_denylisted_rejected_for_security :
  100000 < Js.strlen oversize_sudo /\
  Js.includes oversize_sudo "sudo" = true /\
  validateCode oversize_sudo = Throw (Js.ErrorObject (security_violation "sudo")) /\
  validateCode oversize_sudo <> Throw (Js.ErrorObject code_too_large).
Proof.
  assert (H : validateCode oversize_sudo
              = Throw (Js.ErrorObject (security_violation "sudo")))
    by (vm_compute; reflexivity).
  split; [vm_compute; reflexivity|]. split; [vm_compute; reflexivity|].
  split; [exact H|]. rewrite H. vm_compute. discriminate.
Qed.

(** *** The timeout *)

(** C5, as the code has it.  For a request without timeout, or with one
    that is not negative, the timeout is [min(requested, 30000)] when the
    request is positive and 30000, the maximum, which is the only default
    of the configuration, when it is absent or 0; it is positive, at most
    30000, and it is the delay of both timers armed for the child, the
    executor's and the one of the spawn option. *)
Theorem effective_timeout_clamped req :
  (forall t, timeout req = Some t -> 0 <= t) ->
  effective_timeout req =
    match timeout req with
    | Some t => if t =? 0 then 30000 else Z.min t 30000
    | None => 30000
    end /\
  0 < effective_timeout req <= 30000 /\
  Child.timer (Child.spawned (effective_timeout req)) = Some (effective_timeout req) /\
  Child.spawn_timer (Child.spawned (effective_timeout req)) = Some (effective_timeout req).
Proof.
  intros Hpos.
  assert (H : effective_timeout req =
              match timeout req with
              | Some t => if t =? 0 then 30000 else Z.min t 30000
              | None => 30000
              end /\ 0 < effective_timeout req <= 30000).
  { unfold effective_timeout, Js.or_num. cbn [maxTimeout config DEFAULT_CONFIG].
    destruct (timeout req) as [t|]; [|repeat split; lia].
    specialize (Hpos t eq_refl).
    destruct (Z.eqb_spec t 0); repeat split; lia. }
  destruct H as [Heq Hrange]. repeat split; try tauto; try lia.
  cbn [Child.spawned Child.spawn_timer].
  destruct (Z.ltb_spec 0 (effective_timeout req)); [reflexivity | lia].
Qed.

Lemma effective_timeout_clamped_witness :
  effective_timeout {| code := "print('ok')"; timeout := Some 45000 |} = 30000 /\
  effective_timeout req_print = 500 /\
  effective_timeout req_exit7 = 30000.
Proof.
  split; [|split].
  - refine (proj1 (effective_timeout_clamped {| code := "print('ok')"; timeout := Some 45000 |} _)).
    intros t [= <-]. lia.
  - refine (proj1 (effective_timeout_clamped req_print _)).
    intros t [= <-]. lia.
  - refine (proj1 (effective_timeout_clamped req_exit7 _)).
    intros t [=].
Defined.

(** C5, as stated, fails: a negative timeout is truthy for [||], so it is
    not replaced by the default and [Math.min] returns it unchanged. *)
Lemma negative_timeout_not_substituted :
  timeout req_negative = Some (-5) /\
  effective_timeout req_negative = -5 /\
  effective_timeout req_negative <> maxTimeout config /\
  effective_timeout req_negative <= 0.
Proof. repeat split; try reflexivity; vm_compute; discriminate. Qed.

(** *** The escalation of the timeout *)

(** C1, at a script that ignores SIGTERM and loops, run with a timeout of
    200 ms.  The executor's timer fires and SIGTERM is delivered, which
    sets [proc.killed]; when the grace timer fires a second later the
    child still runs, but the test [!proc.killed] fails and no SIGKILL is
    sent: the log holds the SIGTERM alone, the process keeps its handle and
    the promise stays pending.  The same holds when the runtime's own
    timer has sent the SIGTERM first; the executor's callback then does
    nothing at all. *)
Theorem sigkill_escalation_skipped :
  let s := Child.run 200 events_ignoring_sigterm in
  let s' := Child.run 200 (Child.SpawnTimer :: events_ignoring_sigterm) in
  Child.kills (Child.proc s) = [(Child.SIGTERM, true)] /\
  Child.handle (Child.proc s) = true /\
  Child.promise s = None /\
  Child.kills (Child.proc s') = [(Child.SIGTERM, true)] /\
  Child.handle (Child.proc s') = true /\
  Child.promise s' = None.
Proof. vm_compute. repeat split. Qed.

(** *** The temporary scope *)

(** The removal takes the scope and all below it out of the file
    system. *)
Lemma rm_removes (env : Env) (dir : string) (fs : FileSystem) :
  rm_outcome env = None -> (rm env dir fs).2 !! dir = None.
Proof.
  intros Hr. unfold rm. rewrite Hr. cbn.
  apply map_lookup_filter_None. right. intros x _. cbn.
  unfold under. now rewrite String.eqb_refl.
Qed.

(** On the path on which nothing throws, the scope is gone when [execute]
    returns. *)
Lemma scope_removed_on_return req env fs dir r :
  child_started req env ->
  scope_of env = Some dir ->
  rm_outcome env = None ->
  Child.promise (Child.run (effective_timeout req) (child_events env)) = Some r ->
  files_of (execute req env fs) !! dir = None.
Proof.
  intros (Hv & [suffix Hm] & Hw & Hs) Hd Hr Hp.
  unfold scope_of in Hd. rewrite Hm in Hd. injection Hd as <-.
  run_execute. rewrite Hv, Hm, Hw, Hs, Hp. cbn.
  pose proof (rm_removes env (path_join (os_tmpdir env) "mcp-exec-" ++ suffix)) as H.
  unfold rm in H. rewrite Hr in *. cbn in *. now apply H.
Qed.

(** When the script cannot be written, the [catch] block returns without
    a removal and the scope stays. *)
Lemma scope_left_behind req env fs dir e :
  validateCode (code req) = Normal tt ->
  scope_of env = Some dir ->
  writeFile_outcome env = Some e ->
  execute req env fs = (Normal (failure_result env e), <[dir := Directory]> fs).
Proof.
  intros Hv Hd Hw. unfold scope_of in Hd.
  destruct (mkdtemp_outcome env) as [|suffix] eqn:Hm; [discriminate|].
  injection Hd as <-. run_execute. now rewrite Hv, Hm, Hw.
Qed.

(** C2, at a request whose script cannot be written because the disk is
    full, in a file system that is empty before the call and in which a
    removal would succeed: [execute] returns the error result and the
    scope it created is still there. *)
Theorem scope_left_after_write_failure :
  let run := execute req_print (env_of (Some ENOSPC) events_ok None) ∅ in
  result_of run = Normal (failure_result (env_of (Some ENOSPC) events_ok None) ENOSPC) /\
  scope_of (env_of (Some ENOSPC) events_ok None) = Some scope_dir /\
  files_of run !! scope_dir = Some Directory.
Proof.
  cbv zeta.
  rewrite (scope_left_behind req_print _ ∅ scope_dir ENOSPC);
    try (vm_compute; reflexivity).
  split; [reflexivity|]. split; [vm_compute; reflexivity|].
  unfold files_of. cbn. apply lookup_insert_eq.
Qed.

(** C3, as the code has it.  Once the promise of [executeProcess] holds
    the outcome of the child, the removal decides what is returned: that
    outcome, with its time, when the removal succeeds; when it fails, the
    failure is caught like any other and the result of the [catch] block,
    built from the removal error, is returned in place of the outcome. *)
Theorem cleanup_failure_reported req env fs dir r :
  child_started req env ->
  scope_of env = Some dir ->
  executeProcess (path_join dir "script.py") (effective_timeout req) dir env = Normal r ->
  result_of (execute req env fs) =
    match rm_outcome env with
    | None => Normal (with_executionTime r (now_end env - now_start env))
    | Some e => Normal (failure_result env e)
    end.
Proof.
  intros Hc _ He. apply execute_settled; [exact Hc|].
  destruct Hc as (_ & _ & _ & Hs). unfold executeProcess in He.
  rewrite Hs in He. destruct (Child.promise _); congruence.
Qed.

Lemma cleanup_failure_reported_witness :
  result_of (execute req_print (env_of None events_ok (Some EACCES)) ∅)
    = Normal (failure_result (env_of None events_ok (Some EACCES)) EACCES) /\
  result_of (execute req_print (env_of None events_ok None) ∅)
    = Normal (with_executionTime (Child.exit_result (Some 0) "ok" "") 250).
Proof.
  split.
  - apply (cleanup_failure_reported req_print (env_of None events_ok (Some EACCES)) ∅
             scope_dir (Child.exit_result (Some 0) "ok" ""));
      [repeat split; try (vm_compute; reflexivity); now exists "AbC123"
      | vm_compute; reflexivity | vm_compute; reflexivity].
  - apply (cleanup_failure_reported req_print (env_of None events_ok None) ∅
             scope_dir (Child.exit_result (Some 0) "ok" ""));
      [repeat split; try (vm_compute; reflexivity); now exists "AbC123"
      | vm_compute; reflexivity | vm_compute; reflexivity].
Defined.

(** C3, as stated, fails: the child has printed and ended with status 0,
    so its outcome is a success, and the removal of the scope then fails;
    what [execute] returns is the failure built from the removal error,
    not that outcome. *)
Lemma cleanup_failure_masks_outcome :
  let env := env_of None events_ok (Some EACCES) in
  executeProcess (path_join scope_dir "script.py") (effective_timeout req_print)
      scope_dir env = Normal (Child.exit_result (Some 0) "ok" "") /\
  rm_outcome env = Some EACCES /\
  result_of (execute req_print env ∅) = Normal (failure_result env EACCES) /\
  forall t, result_of (execute req_print env ∅)
            <> Normal (with_executionTime (Child.exit_result (Some 0) "ok" "") t).
Proof.
  cbv zeta.
  assert (H : result_of (execute req_print (env_of None events_ok (Some EACCES)) ∅)
              = Normal (failure_result (env_of None events_ok (Some EACCES)) EACCES))
    by (vm_compute; reflexivity).
  split; [vm_compute; reflexivity|]. split; [reflexivity|]. split; [exact H|].
  intros t Ht. rewrite H in Ht. discriminate Ht.
Qed.

(** *** The outcome of the child *)

(** C9, as the code has it.  A child that ends on its own with a status
    [n] other than 0, in an invocation whose removal of the scope
    succeeds, gives the result [success = false], [exitCode = n], no
    [error], and the captured output. *)
Theorem nonzero_exit_passed_through req env fs pre n post :
  child_started req env ->
  child_events env = (pre ++ Child.Close (Some n) :: post)%list ->
  Child.own_completion pre ->
  n <> 0 ->
  rm_outcome env = None ->
  result_of (execute req env fs) = Normal {|
    success := false;
    stdout := Child.stdout_of pre;
    stderr := Child.stderr_of pre;
    exitCode := n;
    executionTime := now_end env - now_start env;
    error := None
  |}.
Proof.
  intros Hc Hev Hown Hn Hrm.
  destruct (ChildFacts.own_completion_state (effective_timeout req) pre Hown) as [Hk _].
  destruct Hown as (Hcalm & _ & _).
  rewrite (execute_settled req env fs
             (Child.exit_result (Some n) (Child.stdout_of pre) (Child.stderr_of pre)) Hc).
  - rewrite Hrm. unfold with_executionTime, Child.exit_result. cbn.
    now destruct (Z.eqb_spec n 0).
  - rewrite Hev, ChildFacts.close_resolves by now apply ChildFacts.calm_unsettled.
    now rewrite Hk.
Qed.

Lemma nonzero_exit_passed_through_witness :
  result_of (execute req_exit7 (env_of None events_exit7 None) ∅) = Normal {|
    success := false; stdout := ""; stderr := ""; exitCode := 7;
    executionTime := 250; error := None |}.
Proof.
  apply (nonzero_exit_passed_through req_exit7 (env_of None events_exit7 None) ∅
           [Child.Exit] 7 []).
  - repeat split; try (vm_compute; reflexivity). now exists "AbC123".
  - reflexivity.
  - repeat split; vm_compute; discriminate.
  - discriminate.
  - reflexivity.
Defined.

(** C9, as stated, fails: the script ends with status 7 after it has made
    its directory unreadable, the removal of the scope fails, and the
    result carries the exit code -1 and the removal error. *)
Lemma nonzero_exit_masked_by_cleanup_failure :
  let env := env_of None events_exit7 (Some EACCES) in
  child_started req_exit7 env /\
  child_events env = ([Child.Exit] ++ Child.Close (Some 7) :: [])%list /\
  Child.own_completion [Child.Exit] /\
  result_of (execute req_exit7 env ∅) = Normal (failure_result env EACCES) /\
  exitCode (failure_result env EACCES) <> 7 /\
  error (failure_result env EACCES) <> None.
Proof.
  cbv zeta. split.
  { repeat split; try (vm_compute; reflexivity). now exists "AbC123". }
  split; [reflexivity|]. split.
  { repeat split; vm_compute; discriminate. }
  split; [vm_compute; reflexivity|]. split; cbn; discriminate.
Qed.




(** ** Further properties of the executor *)

(** *** Substrings *)

Lemma prefix_app (t b : string) : String.prefix t (t ++ b) = true.
Proof.
  induction t as [|c t IH]; [now destruct b|].
  change (String c t ++ b)%string with (String c (t ++ b)). cbn [String.prefix].
  destruct (ascii_dec c c); [exact IH | congruence].
Qed.

Lemma prefix_split (t s : string) :
  String.prefix t s = true -> exists b, s = t ++ b.
Proof.
  revert s. induction t as [|c t IH]; intros s H.
  - now exists s.
  - destruct s as [|d s]; cbn [String.prefix] in H; [discriminate|].
    destruct (ascii_dec c d) as [->|]; [|discriminate].
    destruct (IH s H) as [b ->]. now exists b.
Qed.

(** [s.includes(t)] holds exactly when [t] stands somewhere in [s]. *)
Lemma includes_spec (s t : string) :
  Js.includes s t = true <-> exists a b, s = a ++ t ++ b.
Proof.
  split.
  - induction s as [|c s IH]; cbn [Js.includes].
    + destruct (String.prefix t "") eqn:Hp; [|discriminate]. intros _.
      destruct (prefix_split _ _ Hp) as [b Hb]. now exists "", b.
    + destruct (String.prefix t (String c s)) eqn:Hp.
      * intros _. destruct (prefix_split _ _ Hp) as [b Hb]. now exists "", b.
      * intros H. destruct (IH H) as (a & b & ->). now exists (String c a), b.
  - intros (a & b & ->). induction a as [|c a IH].
    + change ("" ++ t ++ b)%string with (t ++ b).
      destruct (t ++ b)%string eqn:E; cbn [Js.includes];
        rewrite <- E, prefix_app; reflexivity.
    + change (String c a ++ t ++ b)%string with (String c (a ++ t ++ b)).
      cbn [Js.includes]. rewrite IH. now destruct (String.prefix t _).
Qed.

Lemma first_blocked_hit bl c b :
  In b bl -> Js.includes c b = true -> first_blocked bl c <> None.
Proof.
  intros Hin Hinc H. pose proof (first_blocked_None bl c H b Hin). congruence.
Qed.

(** *** Validation *)

(** X1. [validateCode] accepts a text exactly when it holds none of the
    blocked commands and has at most 100000 characters. *)
Theorem validateCode_accepts_iff (c : string) :
  validateCode c = Normal tt <->
  (forall b, In b denylist -> Js.includes c b = false) /\ Js.strlen c <= 100000.
Proof.
  unfold validateCode. split.
  - destruct (first_blocked denylist c) as [b|] eqn:Hb; [discriminate|].
    destruct (Z.ltb_spec 100000 (Js.strlen c)); [discriminate|]. intros _.
    split; [now apply first_blocked_None | assumption].
  - intros [Hnone Hlen].
    destruct (first_blocked denylist c) as [b|] eqn:Hb.
    + apply first_blocked_Some in Hb as [Hin Hinc].
      rewrite (Hnone b Hin) in Hinc. discriminate.
    + destruct (Z.ltb_spec 100000 (Js.strlen c)); [lia | reflexivity].
Qed.

(** X2. A blocked command is found wherever it stands: a text that holds
    one, with anything before and after it, is rejected with a security
    violation that names an entry of the deny list occurring in the text
    (the first such entry in list order), whatever its length. *)
Theorem blocked_anywhere_rejected (a blocked b : string) :
  In blocked denylist ->
  exists found,
    In found denylist /\
    Js.includes (a ++ blocked ++ b) found = true /\
    validateCode (a ++ blocked ++ b)
      = Throw (Js.ErrorObject (security_violation found)).
Proof.
  intros Hin.
  assert (Hinc : Js.includes (a ++ blocked ++ b) blocked = true)
    by (apply includes_spec; eauto).
  unfold validateCode.
  destruct (first_blocked denylist (a ++ blocked ++ b)) as [found|] eqn:Hf.
  - exists found. apply first_blocked_Some in Hf as [H1 H2]. auto.
  - exfalso. now apply (first_blocked_hit denylist _ blocked Hin Hinc).
Qed.

Lemma blocked_anywhere_rejected_witness :
  In "su" denylist /\
  exists found,
    In found denylist /\
    Js.includes ("total = " ++ "su" ++ "m([1, 2, 3])") found = true /\
    validateCode ("total = " ++ "su" ++ "m([1, 2, 3])")
      = Throw (Js.ErrorObject (security_violation found)).
Proof.
  assert (Hin : In "su" denylist) by (vm_compute; tauto).
  split; [exact Hin|].
  exact (blocked_anywhere_rejected "total = " "su" "m([1, 2, 3])" Hin).
Defined.

(** X3. A rejected text leaves no trace: when the validation throws,
    [execute] returns the failure with that message without creating a
    scope, so the file system is as it was. *)
Theorem rejected_code_leaves_no_trace req env fs e :
  validateCode (code req) = Throw e ->
  files_of (execute req env fs) = fs /\
  result_of (execute req env fs) = Normal {|
    success := false;
    stdout := "";
    stderr := Js.error_text e;
    exitCode := -1;
    executionTime := now_end env - now_start env;
    error := Some (Js.error_text e)
  |}.
Proof.
  intros Hv. now rewrite (validation_rejection_result req env fs e Hv).
Qed.

Lemma rejected_code_leaves_no_trace_witness :
  validateCode (code {| code := "sudo ls"; timeout := None |})
    = Throw (Js.ErrorObject (security_violation "sudo")) /\
  files_of (execute {| code := "sudo ls"; timeout := None |}
              (env_of None events_ok None) ∅) = ∅.
Proof.
  assert (Hv : validateCode (code {| code := "sudo ls"; timeout := None |})
               = Throw (Js.ErrorObject (security_violation "sudo")))
    by (vm_compute; reflexivity).
  split; [exact Hv|].
  exact (proj1 (rejected_code_leaves_no_trace
                  {| code := "sudo ls"; timeout := None |}
                  (env_of None events_ok None) ∅ _ Hv)).
Defined.

(** *** The callbacks, continued *)

Module ChildMore.
Import Child.

(** The first 'error' after events that do not settle resolves the
    promise with the object of the 'error' callback. *)
Lemma error_resolves t pre message post :
  existsb is_settling pre = false ->
  promise (run t (pre ++ ErrorEvent message :: post)%list) =
    Some (error_result message (stdout_of pre) (stderr_of pre)).
Proof.
  intros Hpre. rewrite ChildFacts.run_app. cbn [fold_left].
  apply ChildFacts.fold_settled.
  pose proof (ChildFacts.fold_unsettled pre (spawned t) Hpre eq_refl) as Hp.
  fold (run t pre) in Hp.
  ChildFacts.handlers. now rewrite Hp, ChildFacts.run_out, ChildFacts.run_err.
Qed.

(** Once an event has settled the promise, its value is that of the run
    cut after this event. *)
Lemma settled_prefix t pre e post :
  is_settling e = true ->
  promise (run t (pre ++ e :: post)%list) = promise (run t (pre ++ [e])%list).
Proof.
  intros He. rewrite !ChildFacts.run_app. cbn [fold_left].
  pose proof (ChildFacts.step_settles (run t pre) e He) as Hn.
  destruct (promise (step (run t pre) e)) as [r|] eqn:Hp; [|congruence].
  now apply ChildFacts.fold_settled.
Qed.

Lemma step_closed_inv delivered s e :
  closed_inv delivered s -> closed_inv delivered (step s e).
Proof.
  unfold closed_inv. intros (Ht & Hh & Hk).
  destruct e; ChildFacts.handlers; rewrite ?Ht, ?Hh;
    ChildFacts.split_tests; repeat split; auto;
    try congruence;
    intros sig Hin; apply in_app_or in Hin as [Hin | [Hin | []]]; auto;
    discriminate Hin.
Qed.

End ChildMore.

(** X4. The captured output is passed on whole.  When 'close' settles the
    promise and the removal succeeds, [stdout] of the result is all that
    the child wrote to it before 'close', in order, and [stderr] is all it
    wrote there, followed at most by the message of the forced end;
    nothing is cut at the limit of 1000000 characters. *)
Theorem output_passed_through_whole req env fs pre code post :
  child_started req env ->
  child_events env = (pre ++ Child.Close code :: post)%list ->
  existsb Child.is_settling pre = false ->
  rm_outcome env = None ->
  exists r,
    result_of (execute req env fs) = Normal r /\
    stdout r = Child.stdout_of pre /\
    (stderr r = Child.stderr_of pre \/
     stderr r = Child.stderr_of pre ++ Child.newline ++ Child.timeout_message).
Proof.
  intros Hc Hev Hpre Hrm.
  pose proof (ChildFacts.close_resolves (effective_timeout req) pre code post Hpre) as Hp.
  rewrite <- Hev in Hp.
  rewrite (execute_settled req env fs _ Hc Hp), Hrm.
  eexists. split; [reflexivity|].
  destruct (Child.killed _); cbn; auto.
Qed.

Lemma output_passed_through_whole_witness :
  1000000 < Js.strlen (Child.stdout_of [Child.StdoutData (Js.repeat "a" 1000001); Child.Exit]) /\
  exists r,
    result_of (execute req_loop (env_of None events_flood None) ∅) = Normal r /\
    stdout r = Child.stdout_of [Child.StdoutData (Js.repeat "a" 1000001); Child.Exit].
Proof.
  split.
  - cbn [Child.stdout_of]. rewrite strlen_app, strlen_repeat by lia.
    change (Js.strlen "") with 0. change (Js.strlen "a") with 1. lia.
  - destruct (output_passed_through_whole req_loop (env_of None events_flood None) ∅
                [Child.StdoutData (Js.repeat "a" 1000001); Child.Exit] None [])
      as (r & Hr & Ho & _).
    + repeat split; try (vm_compute; reflexivity). now exists "AbC123".
    + reflexivity.
    + reflexivity.
    + reflexivity.
    + exists r. now split.
Defined.

(** X5. A failure to start the interpreter that the runtime reports by the
    'error' event: when it comes before any 'close' and the removal
    succeeds, the result is [success = false], [exitCode = -1], the
    message of the event as [error], appended after a newline to the
    captured [stderr]; the scope is removed. *)
Theorem error_event_result req env fs dir pre message post :
  child_started req env ->
  scope_of env = Some dir ->
  child_events env = (pre ++ Child.ErrorEvent message :: post)%list ->
  existsb Child.is_settling pre = false ->
  rm_outcome env = None ->
  result_of (execute req env fs) = Normal {|
    success := false;
    stdout := Child.stdout_of pre;
    stderr := Child.stderr_of pre ++ Child.newline ++ message;
    exitCode := -1;
    executionTime := now_end env - now_start env;
    error := Some message
  |} /\
  files_of (execute req env fs) !! dir = None.
Proof.
  intros Hc Hd Hev Hpre Hrm.
  pose proof (ChildMore.error_resolves (effective_timeout req) pre message post Hpre) as Hp.
  rewrite <- Hev in Hp. split.
  - now rewrite (execute_settled req env fs _ Hc Hp), Hrm.
  - now apply (scope_removed_on_return req env fs dir _ Hc Hd Hrm Hp).
Qed.

Lemma error_event_result_witness :
  result_of (execute req_print
               (env_of None [Child.ErrorEvent "spawn python3 ENOENT"; Child.Close (Some (-2))]
                  None) ∅)
    = Normal {|
        success := false; stdout := "";
        stderr := Child.newline ++ "spawn python3 ENOENT";
        exitCode := -1; executionTime := 250;
        error := Some "spawn python3 ENOENT" |}.
Proof.
  refine (proj1 (error_event_result req_print
            (env_of None [Child.ErrorEvent "spawn python3 ENOENT"; Child.Close (Some (-2))] None)
            ∅ scope_dir [] "spawn python3 ENOENT" [Child.Close (Some (-2))] _ _ _ _ _)).
  - repeat split; try (vm_compute; reflexivity). now exists "AbC123".
  - vm_compute; reflexivity.
  - reflexivity.
  - reflexivity.
  - reflexivity.
Defined.

(** X6. The promise is settled once.  The first 'close' or 'error'
    decides what [execute] returns and what it leaves in the file system;
    whatever the event loop delivers after it (more output, a second
    'close' or 'error', a timer) changes neither. *)
Theorem first_settling_event_decides req env fs pre e post :
  child_events env = (pre ++ e :: post)%list ->
  Child.is_settling e = true ->
  execute req env fs = execute req (with_events env (pre ++ [e])) fs.
Proof.
  intros Hev He. unfold execute, executeProcess, mkdtemp, writeFile, rm.
  cbn [with_events now_start now_end os_tmpdir mkdtemp_outcome writeFile_outcome
       spawn_outcome child_events rm_outcome].
  now rewrite Hev, (ChildMore.settled_prefix _ pre e post He).
Qed.

Lemma first_settling_event_decides_witness :
  execute req_print
    (env_of None [Child.Close (Some 0); Child.ErrorEvent "late"; Child.Timer] None) ∅
  = execute req_print (env_of None [Child.Close (Some 0)] None) ∅.
Proof.
  exact (first_settling_event_decides req_print
           (env_of None [Child.Close (Some 0); Child.ErrorEvent "late"; Child.Timer] None)
           ∅ [] (Child.Close (Some 0)) [Child.ErrorEvent "late"; Child.Timer]
           eq_refl eq_refl).
Defined.

(** X7. After 'close' nothing reaches the process any more: the
    executor's timer is cleared, so a late firing does nothing, the
    process has no handle, and every signal that the log records as
    delivered was delivered before the 'close'. *)
Theorem nothing_delivered_after_close t pre code post :
  Child.timer (Child.run t (pre ++ Child.Close code :: post)) = None /\
  Child.handle (Child.proc (Child.run t (pre ++ Child.Close code :: post))) = false /\
  (forall sig,
     In (sig, true) (Child.kills (Child.proc (Child.run t (pre ++ Child.Close code :: post)))) ->
     In (sig, true) (Child.kills (Child.proc (Child.run t pre)))).
Proof.
  change (closed_inv (Child.kills (Child.proc (Child.run t pre)))
            (Child.run t (pre ++ Child.Close code :: post))).
  rewrite ChildFacts.run_app. cbn [fold_left].
  apply (ChildFacts.fold_invariant (closed_inv _)).
  - intros s e. apply ChildMore.step_closed_inv.
  - unfold closed_inv. ChildFacts.handlers. ChildFacts.split_tests; auto.
Qed.

Lemma sigterm_before_sigkill_witness :
  Child.kills (Child.proc (Child.run 200 [Child.Exit; Child.Timer; Child.GraceTimer]))
    = ([(Child.SIGTERM, false)] ++ (Child.SIGKILL, false) :: [])%list /\
  exists d, In (Child.SIGTERM, d) [(Child.SIGTERM, false)].
Proof.
  split; [reflexivity|].
  exact (ChildFacts.sigterm_before_sigkill 200
           [Child.Exit; Child.Timer; Child.GraceTimer]
           [(Child.SIGTERM, false)] false [] eq_refl).
Defined.

(** X9. No sequence of events makes a callback deliver SIGKILL to a child
    that still runs: in every log of the calls of [kill], a SIGKILL is
    one that found the process gone. *)
Theorem sigkill_only_for_ended_process t evs :
  existsb sigkill_delivered (Child.kills (Child.proc (Child.run t evs))) = false.
Proof.
  destruct (existsb _ _) eqn:E; [|reflexivity].
  apply existsb_exists in E as ([[|] [|]] & Hin & Hk); try discriminate Hk.
  exfalso. exact (ChildFacts.sigkill_never_delivered t evs Hin).
Qed.

(** *** The file system *)

Lemma under_script (dir : string) : under dir (path_join dir "script.py") = true.
Proof.
  unfold under, path_join. rewrite <- append_assoc, prefix_app.
  apply orb_true_r.
Qed.

Lemma under_self (dir : string) : under dir dir = true.
Proof. unfold under. now rewrite String.eqb_refl. Qed.

(** X10. What [execute] leaves in the file system.  When the child
    settles and the removal succeeds, nothing is left at or below the
    path of the scope, whatever the script wrote there; outside the scope
    the file system is as the script left it, since nothing confines the
    script and the removal covers the scope only.  So the file system
    after the call is the one before it exactly when, in addition, the
    script changed nothing outside the scope and nothing existed at or
    below the path of the scope before the call. *)
Theorem scope_cleanup_restores_files req env (fs : FileSystem) dir r :
  child_started req env ->
  scope_of env = Some dir ->
  rm_outcome env = None ->
  Child.promise (Child.run (effective_timeout req) (child_events env)) = Some r ->
  (forall p, under dir p = true -> files_of (execute req env fs) !! p = None) /\
  (forall p, under dir p = false ->
     files_of (execute req env fs) !! p
       = child_files env (scope_prepared req dir fs) !! p) /\
  ((forall p, under dir p = false ->
      child_files env (scope_prepared req dir fs) !! p = fs !! p) ->
   (forall p, under dir p = true -> fs !! p = None) ->
   files_of (execute req env fs) = fs).
Proof.
  intros (Hv & [suffix Hm] & Hw & Hs) Hd Hr Hp.
  unfold scope_of in Hd. rewrite Hm in Hd. injection Hd as Hd.
  assert (Hfiles : files_of (execute req env fs)
                   = filter (fun kv => under dir kv.1 = false)
                       (child_files env (scope_prepared req dir fs))).
  { run_execute. rewrite Hv, Hm, Hw, Hs, Hp. cbn. rewrite Hr. cbn.
    now rewrite Hd. }
  assert (Hin : forall p, under dir p = true ->
                  files_of (execute req env fs) !! p = None).
  { intros p Hu. rewrite Hfiles. apply map_lookup_filter_None. right.
    intros x _. cbn. congruence. }
  assert (Hout : forall p, under dir p = false ->
                   files_of (execute req env fs) !! p
                     = child_files env (scope_prepared req dir fs) !! p).
  { intros p Hu. rewrite Hfiles.
    destruct (child_files env (scope_prepared req dir fs) !! p) as [x|] eqn:Hx.
    - apply map_lookup_filter_Some. split; [exact Hx | exact Hu].
    - apply map_lookup_filter_None. now left. }
  split; [exact Hin|]. split; [exact Hout|].
  intros Hframe Hfresh. apply map_eq. intros p.
  destruct (under dir p) eqn:Hu.
  - now rewrite (Hin p Hu), (Hfresh p Hu).
  - now rewrite (Hout p Hu), (Hframe p Hu).
Qed.

Lemma scope_cleanup_restores_files_witness :
  files_of (execute req_write_outside
              (with_child_files (env_of None [Child.Exit; Child.Close (Some 0)] None)
                 write_outside) ∅)
    !! scope_dir = None /\
  files_of (execute req_write_outside
              (with_child_files (env_of None [Child.Exit; Child.Close (Some 0)] None)
                 write_outside) ∅)
    !! "/tmp/left.txt" = Some (RegularFile "left") /\
  files_of (execute req_print (env_of None events_ok None)
              {[ "/tmp/other.txt" := RegularFile "kept" ]})
    = {[ "/tmp/other.txt" := RegularFile "kept" ]}.
Proof.
  destruct (scope_cleanup_restores_files req_write_outside
              (with_child_files (env_of None [Child.Exit; Child.Close (Some 0)] None)
                 write_outside) ∅
              scope_dir (Child.exit_result (Some 0) "" ""))
    as (Hin & Hout & _).
  { repeat split; try (vm_compute; reflexivity). now exists "AbC123". }
  { vm_compute; reflexivity. }
  { reflexivity. }
  { vm_compute; reflexivity. }
  destruct (scope_cleanup_restores_files req_print (env_of None events_ok None)
              {[ "/tmp/other.txt" := RegularFile "kept" ]} scope_dir
              (Child.exit_result (Some 0) "ok" ""))
    as (_ & _ & Hsame).
  { repeat split; try (vm_compute; reflexivity). now exists "AbC123". }
  { vm_compute; reflexivity. }
  { reflexivity. }
  { vm_compute; reflexivity. }
  split; [apply Hin; vm_compute; reflexivity|].
  split.
  - rewrite Hout by (vm_compute; reflexivity).
    cbn [child_files with_child_files]. unfold write_outside.
    apply lookup_insert_eq.
  - apply Hsame.
    + intros p Hu. cbn [child_files env_of]. unfold scope_prepared.
      assert (p <> path_join scope_dir "script.py")
        by (intros ->; rewrite under_script in Hu; discriminate).
      assert (p <> scope_dir) by (intros ->; rewrite under_self in Hu; discriminate).
      now rewrite !lookup_insert_ne by congruence.
    + intros p Hu. apply lookup_singleton_ne. intros <-. vm_compute in Hu. discriminate.
Defined.

(** ** The server with the one tool *)

Module BasicServerFacts.
Import BasicServer.

Lemma body_rejected stringify args env fs m :
  rejected args = Some m ->
  handleExecuteCode_body stringify args env fs = (Throw (Js.ErrorObject m), fs).
Proof.
  unfold rejected, handleExecuteCode_body, lift, Dyn.or.
  destruct (arg_code args) as [| |b|n|s|o]; cbn; rewrite ?orb_true_r;
    try (intros [= <-]; reflexivity).
  destruct (String.eqb s "") eqn:Hs; cbn; [now intros [= <-]|].
  destruct (Dyn.truthy (arg_language args)) eqn:Ht; cbn; [|discriminate].
  destruct (Dyn.equals (arg_language args) "python"); cbn; [discriminate|].
  now intros [= <-].
Qed.

Lemma body_accepted stringify args env fs :
  rejected args = None ->
  handleExecuteCode_body stringify args env fs =
    (result ← execute (request_of args) env;
     mret (result_response stringify result)) fs.
Proof.
  unfold rejected, handleExecuteCode_body, lift, Dyn.or, request_of.
  destruct (arg_code args) as [| |b|n|s|o]; cbn; try discriminate.
  rewrite orb_false_r.
  destruct (String.eqb s "") eqn:Hs; cbn; [discriminate|].
  destruct (Dyn.truthy (arg_language args)) eqn:Ht; cbn; [|reflexivity].
  destruct (Dyn.equals (arg_language args) "python"); cbn; [reflexivity|discriminate].
Qed.

End BasicServerFacts.

(** X11. The handler of [execute_code] turns the arguments down before
    anything runs: when [code] is absent, empty or not a string, or when a
    language other than python is given, it returns the response marked
    [isError] with the reason as text; the executor is not called and the
    file system is as it was. *)
Theorem arguments_rejected_before_execution stringify args env fs m :
  BasicServer.rejected args = Some m ->
  BasicServer.handleExecuteCode stringify args env fs
    = (Normal (error_response stringify (Js.ErrorObject m)), fs).
Proof.
  intros Hr. unfold BasicServer.handleExecuteCode, try_catch.
  now rewrite (BasicServerFacts.body_rejected stringify args env fs m Hr).
Qed.

Lemma arguments_rejected_before_execution_witness :
  BasicServer.handleExecuteCode (fun _ => "{}")
    {| BasicServer.arg_code := Dyn.Str "print(1)";
       BasicServer.arg_language := Dyn.Str "bash";
       BasicServer.arg_timeout := None |}
    (env_of None events_ok None) ∅
  = (Normal (error_response (fun _ => "{}")
               (Js.ErrorObject
                  "Unsupported language: bash. Currently only Python is supported.")), ∅)
  /\
  BasicServer.handleExecuteCode (fun _ => "{}")
    {| BasicServer.arg_code := Dyn.Str "";
       BasicServer.arg_language := Dyn.Undefined;
       BasicServer.arg_timeout := None |}
    (env_of None events_ok None) ∅
  = (Normal (error_response (fun _ => "{}")
               (Js.ErrorObject BasicServer.missing_code)), ∅).
Proof.
  split; apply arguments_rejected_before_execution; reflexivity.
Defined.

(** X12. The handler of [execute_code] never throws, and it marks a
    response [isError] only for arguments it has turned down itself.
    For any other arguments it is pending exactly while the executor is,
    and what the executor returns, a failed run included, comes back in a
    response without [isError], built from that result; the file system
    is the one the executor leaves. *)
Theorem only_rejected_arguments_are_errors stringify args env fs :
  BasicServer.rejected args = None ->
  (forall e, result_of (BasicServer.handleExecuteCode stringify args env fs) <> Throw e) /\
  files_of (BasicServer.handleExecuteCode stringify args env fs)
    = files_of (execute (BasicServer.request_of args) env fs) /\
  match result_of (execute (BasicServer.request_of args) env fs) with
  | Normal r =>
      result_of (BasicServer.handleExecuteCode stringify args env fs)
        = Normal (result_response stringify r) /\
      isError (result_response stringify r) = None
  | _ => result_of (BasicServer.handleExecuteCode stringify args env fs) = Pending
  end.
Proof.
  intros Hr. unfold BasicServer.handleExecuteCode, try_catch.
  rewrite (BasicServerFacts.body_accepted stringify args env fs Hr).
  pose proof (execute_outcomes (BasicServer.request_of args) env fs) as Ho.
  unfold result_of, files_of in *. unfold mbind, exec_bind, mret, exec_ret.
  destruct (execute (BasicServer.request_of args) env fs) as [[r|e|] fs'];
    cbn in *; try (repeat split; try discriminate; reflexivity).
  inversion Ho.
Qed.

Lemma only_rejected_arguments_are_errors_witness :
  exists resp,
    result_of (BasicServer.handleExecuteCode (fun _ => "{}")
                 {| BasicServer.arg_code := Dyn.Str "import os, sys; os.chmod('.', 0); sys.exit(7)";
                    BasicServer.arg_language := Dyn.Undefined;
                    BasicServer.arg_timeout := Some 500 |}
                 (env_of None events_exit7 None) ∅) = Normal resp /\
    isError resp = None.
Proof.
  pose proof (only_rejected_arguments_are_errors (fun _ => "{}")
                {| BasicServer.arg_code := Dyn.Str "import os, sys; os.chmod('.', 0); sys.exit(7)";
                   BasicServer.arg_language := Dyn.Undefined;
                   BasicServer.arg_timeout := Some 500 |}
                (env_of None events_exit7 None) ∅ eq_refl) as (_ & _ & H).
  vm_compute in H. destruct H as [H _]. eexists. split; [exact H | reflexivity].
Defined.

(** X13. The timeout that a server passes is already the one the executor
    will use: [Math.min(timeout, 30000)] for a timeout other than 0,
    30000 for 0 or none; it is never 0 and never above 30000, and the
    executor's own clamp leaves it as it is. *)
Theorem server_timeout_is_final (c : string) (t : option Z) :
  effective_timeout {| code := c; timeout := Some (request_timeout t) |}
    = request_timeout t /\
  request_timeout t <> 0 /\
  request_timeout t <= 30000 /\
  request_timeout t = match t with
                      | Some 0 | None => 30000
                      | Some n => Z.min n 30000
                      end.
Proof.
  unfold effective_timeout, request_timeout, Js.or_num.
  cbn [maxTimeout config DEFAULT_CONFIG timeout].
  destruct t as [n|].
  - destruct (Z.eqb_spec n 0) as [->|Hn]; [cbn; repeat split; lia|].
    destruct (Z.eqb_spec (Z.min n 30000) 0); [lia|].
    repeat split; try lia. destruct n; congruence.
  - cbn. repeat split; lia.
Qed.

(** ** The tool registry *)

Module RegistryFacts.
Import Registry.

(** *** The map *)

Lemma map_get_set_same key value m : map_get key (map_set key value m) = Some value.
Proof.
  induction m as [|[k v] m IH]; cbn; [now rewrite String.eqb_refl|].
  destruct (String.eqb k key) eqn:E; cbn; [now rewrite String.eqb_refl|].
  now rewrite E.
Qed.

Lemma map_get_set_other key value m k' :
  k' <> key -> map_get k' (map_set key value m) = map_get k' m.
Proof.
  intros Hne. induction m as [|[k v] m IH]; cbn.
  - destruct (String.eqb_spec key k'); congruence.
  - destruct (String.eqb_spec k key) as [->|Hk]; cbn.
    + destruct (String.eqb_spec key k'); congruence.
    + now rewrite IH.
Qed.

Lemma map_set_length key value m :
  length (map_set key value m) =
    match map_get key m with
    | Some _ => length m
    | None => S (length m)
    end.
Proof.
  induction m as [|[k v] m IH]; cbn; [reflexivity|].
  destruct (String.eqb k key); cbn; [reflexivity|]. rewrite IH.
  now destruct (map_get key m).
Qed.

Lemma map_get_None key m : map_get key m = None <-> ~ In key (map fst m).
Proof.
  induction m as [|[k v] m IH]; cbn; [tauto|].
  destruct (String.eqb_spec k key) as [->|Hk]; [split; [discriminate | tauto]|].
  rewrite IH. tauto.
Qed.

Lemma map_set_keys key value m :
  map fst (map_set key value m) =
    if existsb (String.eqb key) (map fst m) then map fst m
    else (map fst m ++ [key])%list.
Proof.
  induction m as [|[k v] m IH]; cbn; [reflexivity|].
  rewrite (String.eqb_sym key k).
  destruct (String.eqb_spec k key) as [->|Hk]; cbn; [reflexivity|].
  rewrite IH. now destruct (existsb _ _).
Qed.

Lemma map_set_entries key value m kv :
  In kv (map_set key value m) -> kv = (key, value) \/ In kv m.
Proof.
  induction m as [|[k v] m IH]; cbn; [intros [<-|[]]; now left|].
  destruct (String.eqb k key); cbn.
  - intros [<-|H]; auto.
  - intros [<-|H]; auto. destruct (IH H); auto.
Qed.

Lemma register_well_keyed metadata tools :
  well_keyed tools -> well_keyed (register metadata tools).
Proof.
  unfold well_keyed, register. intros [Hnd Hk]. split.
  - rewrite map_set_keys.
    destruct (existsb _ _) eqn:E; [exact Hnd|].
    apply NoDup_app. split; [exact Hnd|]. split; [|apply NoDup_singleton].
    intros x Hx Hin. apply list_elem_of_singleton in Hin as ->.
    apply list_elem_of_In in Hx.
    assert (existsb (String.eqb (name (tool metadata))) (map fst tools) = true); [|congruence].
    apply existsb_exists. exists (name (tool metadata)).
    split; [exact Hx | apply String.eqb_refl].
  - apply List.Forall_forall. intros kv Hin.
    apply map_set_entries in Hin as [->|Hin]; [reflexivity|].
    now apply (proj1 (List.Forall_forall _ _) Hk).
Qed.

(** *** The sort *)

Section SortFacts.
Context {A : Type} (key : A -> Z).

Let compare : A -> A -> Z := fun a b => key b - key a.

Lemma insert_perm x l : Permutation (insert compare x l) (x :: l).
Proof.
  induction l as [|y l IH]; cbn; [reflexivity|].
  destruct (compare x y <=? 0); [reflexivity|].
  rewrite IH. apply perm_swap.
Qed.

Lemma sort_perm l : Permutation (sort compare l) l.
Proof.
  induction l as [|x l IH]; cbn; [reflexivity|].
  rewrite insert_perm. now constructor.
Qed.

Lemma insert_sorted x l :
  StronglySorted (fun a b => key b <= key a) l ->
  StronglySorted (fun a b => key b <= key a) (insert compare x l).
Proof.
  induction 1 as [|y l Hs IH Hy]; cbn; [repeat constructor|].
  unfold compare at 1. destruct (Z.leb_spec (key y - key x) 0).
  - constructor; [now constructor|]. constructor; [lia|].
    eapply List.Forall_impl; [|exact Hy]. cbn. intros; lia.
  - constructor; [exact IH|].
    eapply Permutation_Forall; [symmetry; apply insert_perm|].
    constructor; [lia | exact Hy].
Qed.

Lemma sort_sorted l : StronglySorted (fun a b => key b <= key a) (sort compare l).
Proof.
  induction l as [|x l IH]; cbn; [constructor | now apply insert_sorted].
Qed.

Lemma insert_stable k x l :
  List.filter (fun a => key a =? k) (insert compare x l)
    = List.filter (fun a => key a =? k) (x :: l).
Proof.
  induction l as [|y l IH]; [reflexivity|]. cbn [insert].
  unfold compare at 1. destruct (Z.leb_spec (key y - key x) 0); [reflexivity|].
  cbn [List.filter] in *. rewrite IH.
  destruct (Z.eqb_spec (key x) k), (Z.eqb_spec (key y) k); try reflexivity. lia.
Qed.

Lemma sort_stable k l :
  List.filter (fun a => key a =? k) (sort compare l)
    = List.filter (fun a => key a =? k) l.
Proof.
  induction l as [|x l IH]; [reflexivity|]. cbn [sort].
  rewrite insert_stable. cbn [List.filter]. now rewrite IH.
Qed.

End SortFacts.

(** *** The scores *)

Lemma score_fold contextLower p kws acc :
  fold_left
    (fun score keyword =>
       if Js.includes contextLower (Text.toLowerCase keyword)
       then score + p else score) kws acc
  = acc + p * Z.of_nat
      (length (List.filter
                 (fun keyword => Js.includes contextLower (Text.toLowerCase keyword)) kws)).
Proof.
  revert acc. induction kws as [|kw kws IH]; intros acc; cbn [fold_left List.filter].
  - cbn. lia.
  - rewrite IH. destruct (Js.includes _ _); cbn [length]; lia.
Qed.

Lemma score_of_matches contextLower metadata :
  score_of contextLower metadata
    = priority metadata * Z.of_nat (matches contextLower metadata).
Proof. unfold score_of, matches. now rewrite score_fold. Qed.

Lemma scoredTools_In contextLower tools t s :
  In (t, s) (scoredTools contextLower tools) <->
  exists k m, In (k, m) tools /\ t = tool m /\ s = score_of contextLower m /\ 0 < s.
Proof.
  induction tools as [|[k m] tools IH]; cbn [scoredTools].
  - split; [intros [] | intros (? & ? & [] & _)].
  - destruct (Z.ltb_spec 0 (score_of contextLower m)) as [Hpos|Hneg].
    + cbn [In]. rewrite IH. split.
      * intros [[= <- <-] | (k' & m' & Hin & H)].
        -- exists k, m. cbn. auto.
        -- exists k', m'. cbn. tauto.
      * intros (k' & m' & [[= <- <-] | Hin] & -> & -> & Hs); [now left|].
        right. now exists k', m'.
    + rewrite IH. split.
      * intros (k' & m' & Hin & H). exists k', m'. cbn. tauto.
      * intros (k' & m' & [[= <- <-] | Hin] & -> & -> & Hs); [lia|].
        now exists k', m'.
Qed.

Lemma scoredTools_length contextLower tools :
  (length (scoredTools contextLower tools) <= length tools)%nat.
Proof.
  induction tools as [|[k m] tools IH]; cbn [scoredTools length]; [lia|].
  destruct (0 <? _); cbn [length]; lia.
Qed.

End RegistryFacts.

(** *** Texts *)

Module TextFacts.
Import Text.

Lemma lower_char_idem c : lower_char (lower_char c) = lower_char c.
Proof. destruct c as [[] [] [] [] [] [] [] []]; vm_compute; reflexivity. Qed.

Lemma is_space_lower c : is_space (lower_char c) = is_space c.
Proof. destruct c as [[] [] [] [] [] [] [] []]; vm_compute; reflexivity. Qed.

Lemma toLowerCase_idem s : toLowerCase (toLowerCase s) = toLowerCase s.
Proof.
  induction s as [|c s IH]; cbn; [reflexivity|]. now rewrite lower_char_idem, IH.
Qed.

Lemma blank_lower s : blank (toLowerCase s) = blank s.
Proof.
  induction s as [|c s IH]; cbn; [reflexivity|]. now rewrite is_space_lower, IH.
Qed.

Lemma trimStart_blank s : blank (trimStart s) = blank s.
Proof.
  induction s as [|c s IH]; cbn; [reflexivity|].
  destruct (is_space c) eqn:E; cbn; [exact IH | now rewrite E].
Qed.

Lemma trimEnd_empty s : String.eqb (trimEnd s) "" = blank s.
Proof.
  induction s as [|c s IH]; cbn; [reflexivity|].
  rewrite IH. destruct (is_space c), (blank s); reflexivity.
Qed.

(** [s.trim() === ''] holds exactly for a text of white space only. *)
Lemma trim_empty s : String.eqb (trim s) "" = blank s.
Proof. unfold trim. now rewrite trimEnd_empty, trimStart_blank. Qed.

End TextFacts.

Module DiscoveryFacts.
Import Registry.

Lemma no_context_blank c : no_context (Some c) = Text.blank c.
Proof.
  unfold no_context. rewrite TextFacts.trim_empty.
  destruct c; [reflexivity|]. reflexivity.
Qed.

Lemma values_In (tools : ToolMap) k m : In (k, m) tools -> In m (values tools).
Proof. intros H. unfold values. apply in_map_iff. now exists (k, m). Qed.

Lemma getAllTools_length tools : length (getAllTools tools) = length tools.
Proof.
  unfold getAllTools, values.
  rewrite length_map, (Permutation_length (RegistryFacts.sort_perm priority _)).
  apply length_map.
Qed.

Lemma filter_length_le {A} (f : A -> bool) l : (length (List.filter f l) <= length l)%nat.
Proof. induction l as [|x l IH]; cbn; [lia|]. destruct (f x); cbn; lia. Qed.

Lemma getFallbackTools_length tools : (length (getFallbackTools tools) <= length tools)%nat.
Proof.
  unfold getFallbackTools, values. rewrite length_map.
  etransitivity; [apply filter_length_le|]. now rewrite length_map.
Qed.

Lemma ranked_perm tools c :
  Permutation (ranked tools c) (scoredTools (Text.toLowerCase c) tools).
Proof. apply (RegistryFacts.sort_perm snd). Qed.

Lemma ranked_length tools c : (length (ranked tools c) <= length tools)%nat.
Proof.
  rewrite (Permutation_length (ranked_perm tools c)).
  apply RegistryFacts.scoredTools_length.
Qed.

Lemma discoverTools_cases tools context :
  discoverTools tools context = getAllTools tools \/
  discoverTools tools context = getFallbackTools tools \/
  discoverTools tools context = map fst (ranked tools (default "" context)).
Proof.
  unfold discoverTools. destruct (no_context context); [now left|].
  cbv zeta. destruct (Nat.eqb _ 0); auto.
Qed.

Lemma discovered_registered tools context t :
  In t (discoverTools tools context) ->
  exists m, In m (values tools) /\ tool m = t.
Proof.
  destruct (discoverTools_cases tools context) as [-> | [-> | ->]].
  - unfold getAllTools. intros (m & <- & Hm)%in_map_iff. exists m. split; [|reflexivity].
    eapply Permutation_in; [apply (RegistryFacts.sort_perm priority)|exact Hm].
  - unfold getFallbackTools. intros (m & <- & Hm)%in_map_iff.
    apply filter_In in Hm as [Hm _]. now exists m.
  - intros ([t' s] & <- & Hin)%in_map_iff.
    eapply Permutation_in in Hin; [|apply ranked_perm].
    apply RegistryFacts.scoredTools_In in Hin as (k & m & Hin & -> & _).
    exists m. split; [now apply (values_In tools k)|reflexivity].
Qed.

Lemma discoverTools_length tools context :
  (length (discoverTools tools context) <= length tools)%nat.
Proof.
  destruct (discoverTools_cases tools context) as [-> | [-> | ->]].
  - now rewrite getAllTools_length.
  - apply getFallbackTools_length.
  - rewrite length_map. apply ranked_length.
Qed.

Lemma existsb_eqb_In x (l : list string) :
  existsb (String.eqb x) l = true <-> In x l.
Proof.
  rewrite existsb_exists. split.
  - intros (y & Hy & ->%String.eqb_eq). exact Hy.
  - intros H. exists x. split; [exact H | apply String.eqb_refl].
Qed.

Lemma unique_from_In seen l x :
  In x (unique_from seen l) <-> In x l /\ ~ In x seen.
Proof.
  revert seen. induction l as [|y l IH]; intros seen; cbn; [tauto|].
  destruct (existsb (String.eqb y) seen) eqn:E.
  - apply existsb_eqb_In in E. rewrite IH. split; [tauto|].
    intros [[<-|H] Hn]; tauto.
  - assert (Hy : ~ In y seen) by (rewrite <- existsb_eqb_In; congruence).
    cbn. rewrite IH. cbn. split.
    + intros [<-|[H Hn]]; [tauto|]. split; [tauto|]. intros Hs. apply Hn. now right.
    + intros [[<-|H] Hn]; [now left|].
      destruct (String.eqb_spec y x) as [->|Hne]; [now left|].
      right. split; [exact H|]. intros [->|Hs]; tauto.
Qed.

Lemma unique_from_NoDup seen l : NoDup (unique_from seen l).
Proof.
  revert seen. induction l as [|y l IH]; intros seen; cbn; [constructor|].
  destruct (existsb (String.eqb y) seen) eqn:E; [apply IH|].
  apply NoDup_cons. split; [|apply IH].
  rewrite list_elem_of_In, unique_from_In. cbn. tauto.
Qed.

End DiscoveryFacts.

(** X14. Registering and looking up.  After [register], the registry
    holds the new entry under the name of its tool and every other name
    as before; a name that was there gets the new entry in place, so the
    size stays, and a new name adds one entry. *)
Theorem register_then_lookup (metadata : Registry.ToolMetadata) (tools : Registry.ToolMap) :
  Registry.map_get (Registry.name (Registry.tool metadata)) (Registry.register metadata tools)
    = Some metadata /\
  (forall key, key <> Registry.name (Registry.tool metadata) ->
     Registry.map_get key (Registry.register metadata tools) = Registry.map_get key tools) /\
  length (Registry.register metadata tools) =
    match Registry.map_get (Registry.name (Registry.tool metadata)) tools with
    | Some _ => length tools
    | None => S (length tools)
    end.
Proof.
  unfold Registry.register. split; [apply RegistryFacts.map_get_set_same|].
  split; [intros key Hne; now apply RegistryFacts.map_get_set_other|].
  apply RegistryFacts.map_set_length.
Qed.

(** X15. Whatever is registered, in whatever order, the registry has each
    name once and each entry stands under the name of its own tool. *)
Theorem registry_well_keyed (l : list Registry.ToolMetadata) :
  Registry.well_keyed
    (fold_left (fun tools metadata => Registry.register metadata tools) l []).
Proof.
  assert (H : forall tools, Registry.well_keyed tools ->
            Registry.well_keyed
              (fold_left (fun tools metadata => Registry.register metadata tools) l tools)).
  { induction l as [|m l IH]; intros tools Hw; cbn; [exact Hw|].
    apply IH. now apply RegistryFacts.register_well_keyed. }
  apply H. split; constructor.
Qed.

(** X16. Without a context all tools are listed: for no context, the
    empty text, or a text of white space only (spaces, tabs, line ends,
    no-break spaces), [discoverTools] is [getAllTools]. *)
Theorem blank_context_lists_all (tools : Registry.ToolMap) (context : option string) :
  match context with
  | None => True
  | Some c => Text.blank c = true
  end ->
  Registry.discoverTools tools context = Registry.getAllTools tools.
Proof.
  unfold Registry.discoverTools. destruct context as [c|]; [|reflexivity].
  intros Hb. now rewrite DiscoveryFacts.no_context_blank, Hb.
Qed.

Lemma blank_context_lists_all_witness :
  Registry.discoverTools IntelligentServer.registerTools (Some ("  " ++ nl))
    = Registry.getAllTools IntelligentServer.registerTools.
Proof.
  apply (blank_context_lists_all IntelligentServer.registerTools (Some ("  " ++ nl))).
  reflexivity.
Defined.

(** X17. [getStats] never counts more discovered tools than registered
    ones, and its categories are the categories of the registered tools,
    each once; every discovered tool is a registered one. *)
Theorem stats_are_consistent (tools : Registry.ToolMap) (context : option string) :
  (Registry.discoveredTools (Registry.getStats tools context)
     <= Registry.totalTools (Registry.getStats tools context))%nat /\
  NoDup (Registry.categories (Registry.getStats tools context)) /\
  (forall c, In c (Registry.categories (Registry.getStats tools context)) <->
             exists m, In m (Registry.values tools) /\ Registry.category m = c) /\
  (forall t, In t (Registry.discoverTools tools context) ->
             exists m, In m (Registry.values tools) /\ Registry.tool m = t).
Proof.
  cbn [Registry.getStats Registry.discoveredTools Registry.totalTools Registry.categories].
  split; [apply DiscoveryFacts.discoverTools_length|].
  split; [apply DiscoveryFacts.unique_from_NoDup|]. split.
  - intros c. rewrite DiscoveryFacts.unique_from_In, in_map_iff. cbn. split.
    + intros [(m & <- & Hm) _]. now exists m.
    + intros (m & Hm & <-). split; [now exists m | tauto].
  - apply DiscoveryFacts.discovered_registered.
Qed.

(** X18. How a context selects.  For a context that is not blank, the
    score of a tool is its priority times the number of its keywords that
    occur, without regard to case, in the context; the tools with a score
    above 0 are ranked, and they are what [discoverTools] returns, unless
    there is none, in which case it returns the fallback tools. *)
Theorem discovery_by_score (tools : Registry.ToolMap) (c : string) :
  Text.blank c = false ->
  (forall t s,
     In (t, s) (Registry.ranked tools c) <->
     exists k m,
       In (k, m) tools /\ t = Registry.tool m /\
       s = Registry.priority m * Z.of_nat (Registry.matches (Text.toLowerCase c) m) /\
       0 < s) /\
  Registry.discoverTools tools (Some c) =
    match Registry.ranked tools c with
    | [] => Registry.getFallbackTools tools
    | _ :: _ => map fst (Registry.ranked tools c)
    end.
Proof.
  intros Hb. split.
  - intros t s. split.
    + intros Hin. eapply Permutation_in in Hin; [|apply DiscoveryFacts.ranked_perm].
      apply RegistryFacts.scoredTools_In in Hin as (k & m & Hin & -> & -> & Hs).
      exists k, m. now rewrite <- RegistryFacts.score_of_matches.
    + intros (k & m & Hin & -> & -> & Hs).
      eapply Permutation_in; [symmetry; apply DiscoveryFacts.ranked_perm|].
      apply RegistryFacts.scoredTools_In. exists k, m.
      now rewrite RegistryFacts.score_of_matches.
  - unfold Registry.discoverTools.
    rewrite DiscoveryFacts.no_context_blank, Hb. cbn [default]. unfold id. cbv zeta.
    destruct (Registry.ranked tools c); reflexivity.
Qed.

Lemma discovery_by_score_witness :
  Text.blank "Check the NGINX access log" = false /\
  Registry.discoverTools IntelligentServer.registerTools (Some "Check the NGINX access log")
    = map Registry.tool [Tools.analyze_nginx_logs; Tools.analyze_log_patterns].
Proof.
  split; [reflexivity|].
  rewrite (proj2 (discovery_by_score IntelligentServer.registerTools
                    "Check the NGINX access log" eq_refl)).
  vm_compute. reflexivity.
Defined.

(** X19. The ranked tools come in the order of their scores, highest
    first, and tools with the same score in the order in which the
    registry holds them. *)
Theorem ranked_by_score (tools : Registry.ToolMap) (c : string) :
  StronglySorted (fun a b => snd b <= snd a) (Registry.ranked tools c) /\
  Permutation (Registry.ranked tools c)
    (Registry.scoredTools (Text.toLowerCase c) tools) /\
  (forall s,
     List.filter (fun a => snd a =? s) (Registry.ranked tools c)
       = List.filter (fun a => snd a =? s)
           (Registry.scoredTools (Text.toLowerCase c) tools)).
Proof.
  split; [apply (RegistryFacts.sort_sorted snd)|].
  split; [apply DiscoveryFacts.ranked_perm|].
  intros s. apply (RegistryFacts.sort_stable snd).
Qed.

(** X20. A registry that holds a tool named [execute_code] never answers
    with an empty list: whatever the context, [discoverTools] returns at
    least one tool. *)
Theorem some_tool_always_offered (tools : Registry.ToolMap) (context : option string)
    (m : Registry.ToolMetadata) :
  In m (Registry.values tools) ->
  Registry.name (Registry.tool m) = "execute_code" ->
  exists t rest, Registry.discoverTools tools context = t :: rest.
Proof.
  intros Hm Hn.
  assert (Hne : forall (l : list Registry.Tool), l <> [] -> exists t rest, l = t :: rest)
    by (intros [|t rest] H; [congruence | eauto]).
  apply Hne. unfold Registry.discoverTools.
  destruct (Registry.no_context context).
  - intros H. apply (f_equal (@length _)) in H.
    rewrite DiscoveryFacts.getAllTools_length in H.
    unfold Registry.values in Hm. destruct tools; [destruct Hm | discriminate H].
  - cbv zeta. destruct (Nat.eqb _ 0) eqn:E.
    + unfold Registry.getFallbackTools. intros H.
      assert (Hin : In (Registry.tool m)
                      (map Registry.tool
                         (List.filter
                            (fun m => existsb (String.eqb (Registry.name (Registry.tool m)))
                                        Registry.fallbackNames)
                            (Registry.values tools)))).
      { apply in_map, filter_In. split; [exact Hm|]. now rewrite Hn. }
      rewrite H in Hin. destruct Hin.
    + intros H. rewrite H in E. discriminate E.
Qed.

Lemma some_tool_always_offered_witness :
  exists t rest,
    Registry.discoverTools IntelligentServer.registerTools (Some "what is the weather")
      = t :: rest.
Proof.
  apply (some_tool_always_offered IntelligentServer.registerTools
           (Some "what is the weather") Tools.execute_code).
  - vm_compute. tauto.
  - reflexivity.
Defined.

(** X21. The case of the context does not matter: a context and its
    lower case select the same tools. *)
Theorem discovery_ignores_case (tools : Registry.ToolMap) (c : string) :
  Registry.discoverTools tools (Some (Text.toLowerCase c))
    = Registry.discoverTools tools (Some c).
Proof.
  unfold Registry.discoverTools, Registry.ranked.
  rewrite !DiscoveryFacts.no_context_blank, TextFacts.blank_lower.
  cbn [default]. unfold id.
  now rewrite TextFacts.toLowerCase_idem.
Qed.

(** X22. [getAllTools] returns every registered tool, each entry once, in
    the order of the priorities, highest first, and tools of the same
    priority in the order in which the registry holds them. *)
Theorem all_tools_by_priority (tools : Registry.ToolMap) :
  exists l,
    Registry.getAllTools tools = map Registry.tool l /\
    Permutation l (Registry.values tools) /\
    StronglySorted (fun a b => Registry.priority b <= Registry.priority a) l /\
    (forall p,
       List.filter (fun a => Registry.priority a =? p) l
         = List.filter (fun a => Registry.priority a =? p) (Registry.values tools)).
Proof.
  eexists. split; [reflexivity|].
  split; [apply (RegistryFacts.sort_perm Registry.priority)|].
  split; [apply (RegistryFacts.sort_sorted Registry.priority)|].
  intros p. apply (RegistryFacts.sort_stable Registry.priority).
Qed.

(** X23. [getToolsByCategory] returns the tools of the registered entries
    with that category and no other; an unknown category gives the empty
    list. *)
Theorem tools_of_category (tools : Registry.ToolMap) (cat : string) :
  (forall t,
     In t (Registry.getToolsByCategory tools cat) <->
     exists m, In m (Registry.values tools) /\ Registry.category m = cat /\
               Registry.tool m = t) /\
  length (Registry.getToolsByCategory tools cat)
    = length (List.filter (fun m => String.eqb (Registry.category m) cat)
                (Registry.values tools)).
Proof.
  unfold Registry.getToolsByCategory. split.
  - intros t. rewrite in_map_iff. split.
    + intros (m & <- & Hm).
      eapply Permutation_in in Hm; [|apply (RegistryFacts.sort_perm Registry.priority)].
      apply filter_In in Hm as [Hm Hc]. apply String.eqb_eq in Hc. now exists m.
    + intros (m & Hm & Hc & <-). exists m. split; [reflexivity|].
      eapply Permutation_in; [symmetry; apply (RegistryFacts.sort_perm Registry.priority)|].
      apply filter_In. split; [exact Hm | now apply String.eqb_eq].
  - rewrite length_map.
    apply Permutation_length, (RegistryFacts.sort_perm Registry.priority).
Qed.

(** ** The server with the seven tools *)

Module ServerFacts.
Import Registry IntelligentServer.

Lemma includes_within_l s t b : Js.includes s t = true -> Js.includes (s ++ b) t = true.
Proof.
  intros (a & b' & ->)%includes_spec. apply includes_spec.
  exists a, (b' ++ b)%string. now rewrite !append_assoc.
Qed.

Lemma includes_within_r s t a : Js.includes s t = true -> Js.includes (a ++ s) t = true.
Proof.
  intros (a' & b & ->)%includes_spec. apply includes_spec.
  exists (a ++ a')%string, b. now rewrite !append_assoc.
Qed.

(** Finds a fixed line of a template that holds the text looked for. *)
Ltac find_line :=
  first [ apply includes_within_l; vm_compute; reflexivity
        | apply includes_within_r; find_line ].

Lemma nginx_code_blocked args : Js.includes (nginx_code args) "su" = true.
Proof. unfold nginx_code. find_line. Qed.

Lemma k8s_code_blocked args : Js.includes (k8s_code args) "dd" = true.
Proof. unfold k8s_code. find_line. Qed.

Lemma health_code_blocked args : Js.includes (health_code args) "su" = true.
Proof. unfold health_code. find_line. Qed.

Lemma config_code_blocked args : Js.includes (config_code args) "su" = true.
Proof. unfold config_code. find_line. Qed.

Lemma patterns_code_blocked args : Js.includes (patterns_code args) "su" = true.
Proof. unfold patterns_code. find_line. Qed.

Lemma blocked_rejected c b :
  In b denylist -> Js.includes c b = true ->
  exists found,
    In found denylist /\ Js.includes c found = true /\
    validateCode c = Throw (Js.ErrorObject (security_violation found)).
Proof.
  intros Hin Hinc. unfold validateCode.
  destruct (first_blocked denylist c) as [found|] eqn:Hf.
  - exists found. apply first_blocked_Some in Hf as [H1 H2]. auto.
  - exfalso. now apply (first_blocked_hit denylist _ b Hin Hinc).
Qed.

Lemma executePythonCode_rejected stringify c t env fs e :
  validateCode c = Throw e ->
  executePythonCode stringify c t env fs
    = (Normal (result_response stringify (failure_result env e)), fs).
Proof.
  intros Hv. unfold executePythonCode, try_catch, mbind, exec_bind, mret, exec_ret.
  now rewrite (validation_rejection_result
                 {| code := c; timeout := Some (request_timeout t) |} env fs e Hv).
Qed.

(** Finds the tool definition with the name asked for. *)
Ltac find_definition :=
  let try_one m := (exists m; split; [cbn; tauto | reflexivity]) in
  first [ try_one Tools.analyze_nginx_logs | try_one Tools.analyze_docker_logs
        | try_one Tools.validate_kubernetes_yaml | try_one Tools.check_system_health
        | try_one Tools.execute_code | try_one Tools.validate_config_file
        | try_one Tools.analyze_log_patterns ].

Lemma registered_values :
  values registerTools =
    [Tools.analyze_nginx_logs; Tools.analyze_docker_logs;
     Tools.validate_kubernetes_yaml; Tools.check_system_health;
     Tools.execute_code; Tools.validate_config_file; Tools.analyze_log_patterns].
Proof. reflexivity. Qed.

End ServerFacts.

(** X24. The tools that the server can offer and the tools that it can
    run are the same: every tool that [discoverTools] returns from the
    server's registry, for any context, has a case in the [switch] of the
    tool-call handler, and every name with a case is the name of a tool
    definition. *)
Theorem offered_tools_are_routed :
  (forall context t,
     In t (Registry.discoverTools IntelligentServer.registerTools context) ->
     exists h, IntelligentServer.route (Registry.name t) = Some h) /\
  (forall toolName h,
     IntelligentServer.route toolName = Some h ->
     exists m, In m Tools.TOOL_DEFINITIONS /\
               Registry.name (Registry.tool m) = toolName).
Proof.
  split.
  - intros context t Hin.
    apply DiscoveryFacts.discovered_registered in Hin as (m & Hm & <-).
    rewrite ServerFacts.registered_values in Hm. cbn [In] in Hm.
    repeat destruct Hm as [<- | Hm]; try (eexists; reflexivity). destruct Hm.
  - intros toolName h. unfold IntelligentServer.route.
    repeat match goal with
           | |- context [String.eqb toolName ?s] =>
               destruct (String.eqb_spec toolName s) as [-> | _];
               [intros _; ServerFacts.find_definition|]
           end.
    discriminate.
Qed.

(** X25. The list of tools does not depend on any query: the field
    [lastUserQuery] stays empty, so the handler of the tool list returns
    all seven tools, ordered by priority. *)
Theorem list_tools_returns_all :
  IntelligentServer.listTools = Registry.getAllTools IntelligentServer.registerTools /\
  map Registry.name IntelligentServer.listTools =
    ["analyze_nginx_logs"; "analyze_docker_logs"; "validate_kubernetes_yaml";
     "check_system_health"; "analyze_log_patterns"; "validate_config_file";
     "execute_code"].
Proof. split; reflexivity. Qed.

(** X26. Five of the six handlers with a fixed script can never run it.
    The scripts for the nginx logs, the Kubernetes files, the system
    health, the configuration files and the log patterns hold, in their
    fixed lines, a text of the executor's deny list ([su] in [result],
    [dd] in [adding]).  So whatever the arguments, the validation throws
    a security violation, nothing is written or started, and the response
    carries the executor's failure, without [isError]. *)
Theorem templated_handlers_always_rejected stringify h template args env fs :
  In h [IntelligentServer.HandleAnalyzeNginxLogs; IntelligentServer.HandleValidateK8sYaml;
        IntelligentServer.HandleSystemHealth; IntelligentServer.HandleValidateConfig;
        IntelligentServer.HandleAnalyzeLogPatterns] ->
  IntelligentServer.template_of h = Some template ->
  exists found,
    In found denylist /\
    validateCode (template args) = Throw (Js.ErrorObject (security_violation found)) /\
    IntelligentServer.executePythonCode stringify (template args) None env fs
      = (Normal (result_response stringify
                   (failure_result env (Js.ErrorObject (security_violation found)))),
         fs).
Proof.
  intros Hh Ht.
  assert (Hb : exists b, In b denylist /\ Js.includes (template args) b = true).
  { cbn [In] in Hh.
    destruct Hh as [<- | [<- | [<- | [<- | [<- | []]]]]]; cbn in Ht;
      injection Ht as <-.
    - exists "su". split; [vm_compute; tauto | apply ServerFacts.nginx_code_blocked].
    - exists "dd". split; [vm_compute; tauto | apply ServerFacts.k8s_code_blocked].
    - exists "su". split; [vm_compute; tauto | apply ServerFacts.health_code_blocked].
    - exists "su". split; [vm_compute; tauto | apply ServerFacts.config_code_blocked].
    - exists "su". split; [vm_compute; tauto | apply ServerFacts.patterns_code_blocked]. }
  destruct Hb as (b & Hin & Hinc).
  destruct (ServerFacts.blocked_rejected _ b Hin Hinc) as (found & Hf & _ & Hv).
  exists found. split; [exact Hf|]. split; [exact Hv|].
  now apply ServerFacts.executePythonCode_rejected.
Qed.

Lemma templated_handlers_always_rejected_witness :
  exists found,
    In found denylist /\
    validateCode (IntelligentServer.health_code ∅)
      = Throw (Js.ErrorObject (security_violation found)) /\
    IntelligentServer.executePythonCode (fun _ => "{}")
      (IntelligentServer.health_code ∅) None (env_of None events_ok None) ∅
      = (Normal (result_response (fun _ => "{}")
                   (failure_result (env_of None events_ok None)
                      (Js.ErrorObject (security_violation found)))),
         ∅).
Proof.
  apply (templated_handlers_always_rejected (fun _ => "{}")
           IntelligentServer.HandleSystemHealth IntelligentServer.health_code
           ∅ (env_of None events_ok None) ∅).
  - cbn. tauto.
  - reflexivity.
Defined.

(** X27. [executePythonCode] never throws and never marks a response
    [isError]: its [catch] block is not reached, since the executor
    returns its failures as results.  It is pending exactly while the
    executor is, and otherwise answers with the executor's result for the
    text and the clamped timeout; the file system is the one the executor
    leaves. *)
Theorem executePythonCode_never_errors stringify c t env fs :
  (forall e, result_of (IntelligentServer.executePythonCode stringify c t env fs)
             <> Throw e) /\
  files_of (IntelligentServer.executePythonCode stringify c t env fs)
    = files_of (execute {| code := c; timeout := Some (request_timeout t) |} env fs) /\
  match result_of (execute {| code := c; timeout := Some (request_timeout t) |} env fs) with
  | Normal r =>
      result_of (IntelligentServer.executePythonCode stringify c t env fs)
        = Normal (result_response stringify r) /\
      isError (result_response stringify r) = None
  | _ => result_of (IntelligentServer.executePythonCode stringify c t env fs) = Pending
  end.
Proof.
  unfold IntelligentServer.executePythonCode, try_catch.
  pose proof (execute_outcomes {| code := c; timeout := Some (request_timeout t) |} env fs)
    as Ho.
  unfold result_of, files_of in *. unfold mbind, exec_bind, mret, exec_ret.
  destruct (execute {| code := c; timeout := Some (request_timeout t) |} env fs)
    as [[r|e|] fs'];
    cbn in *; try (repeat split; try discriminate; reflexivity).
  inversion Ho.
Qed.
